(** * docs-fetcher: session routing, fetch helpers and tool registry

    A shallow embedding of the TypeScript sources of the docs-fetcher MCP
    server:

    - [src/utils/fetcher.ts]: [fetchWithTimeout], [fetchJson], [fetchText],
      [truncate];
    - [src/tools/github.ts], [src/tools/npm.ts], [tools/docs.js]: the tool
      descriptor tables (names and descriptions);
    - [src/server.ts]: [allTools], [createMcpServer], the [sessions] map and
      the three [/mcp] handlers together with the eviction timer.

    Modelling choices.

    - JavaScript objects that are shared by reference (engines, transports)
      live in an explicit store and are named by their index; the [Map] of
      sessions is a [gmap] from tokens to pairs of references.
    - The MCP SDK and the platform's [fetch] are not part of the sources.
      What they do during a call is an input: a record [Sdk] per request, a
      function [fetch] for the helpers. Every statement holds for all of
      them.
    - Time is a clock in milliseconds; [setTimeout] queues a deadline, and
      the event [Elapse] moves the clock and runs the callbacks that are
      due.
    - A handler runs as one step. The handlers only touch the map in
      segments without [await]: the lookup at the start, and
      [sessions.set] with [setTimeout] after the last [await]; so other
      handlers that run while one is suspended see and cause the same map
      changes as if it ran in one piece.
    - Numbers are integers ([Z], [N]); strings that are cut by position are
      sequences of UTF-16 code units. *)

From Stdlib Require Import ZArith Lia.
From stdpp Require Import gmap strings list fin_maps pretty.

Open Scope Z_scope.
Set Warnings "-register-all".

(* ===================================================================== *)
(** * JavaScript values used by the sources *)
(* ===================================================================== *)

(** JSON values: the result of [response.json()] and of [express.json()].
    [JNull] is JavaScript's [null]. *)
Inductive Json : Type :=
| JNull
| JBool (b : bool)
| JNum (z : Z)
| JStr (s : string)
| JArr (items : list Json)
| JObj (fields : list (string * Json)).

(** A value caught by [catch (error)]: either an object for which
    [error instanceof Error] holds, with its [name] and [message], or any
    other value, carried as the text [String(error)] produces. *)
Inductive Thrown : Type :=
| ErrorObject (name message : string)
| NonError (shown : string).

(** The three fates of an awaited promise. *)
Inductive Promise (A : Type) : Type :=
| Fulfilled (a : A)
| Rejected (e : Thrown)
| Pending.
Arguments Fulfilled {A} a.
Arguments Rejected {A} e.
Arguments Pending {A}.

(** [await p] followed by the continuation [k]. *)
Definition await {A B : Type} (p : Promise A) (k : A -> Promise B) : Promise B :=
  match p with
  | Fulfilled a => k a
  | Rejected e => Rejected e
  | Pending => Pending
  end.

(** [try { body } catch (error) { handler }] around an [async] body. *)
Definition try_catch {A : Type} (body : Promise A) (handler : Thrown -> Promise A)
  : Promise A :=
  match body with
  | Fulfilled a => Fulfilled a
  | Rejected e => handler e
  | Pending => Pending
  end.

Notation "'let_await' x ':=' p 'in' k" := (await p (fun x => k))
  (at level 10, x name, p at level 100, k at level 200, only parsing).

(** JavaScript truthiness of a [string | undefined]: [undefined] and the
    empty string are falsy. The result is the string when it is truthy. *)
Definition truthy (s : option string) : option string :=
  match s with
  | Some v => if String.eqb v "" then None else Some v
  | None => None
  end.

(* ===================================================================== *)
(** * src/utils/fetcher.ts *)
(* ===================================================================== *)

Definition DEFAULT_TIMEOUT : Z := 10000.

(** [interface FetchOptions extends RequestInit { timeout?; headers? }] *)
Record FetchOptions : Type := {
  timeout : option Z;
  method : option string;
  headers : list (string * string)
}.

(** What remains of the options after [timeout] is taken out:
    [const { timeout = DEFAULT_TIMEOUT, ...fetchOptions } = options]. *)
Record RequestInit : Type := {
  init_method : option string;
  init_headers : list (string * string)
}.

Definition fetchOptions (options : FetchOptions) : RequestInit :=
  {| init_method := method options; init_headers := headers options |}.

(** [options = {}] *)
Definition no_options : FetchOptions :=
  {| timeout := None; method := None; headers := [] |}.

(** The part of a [Response] the helpers read. *)
Record Response : Type := {
  ok : bool;
  status : N;
  statusText : string;
  json : Promise Json;
  text : Promise string
}.

(** What the platform's [fetch] does when it is left alone: it answers or
    fails after some milliseconds, or it never settles. *)
Inductive Upstream : Type :=
| Responds (after : Z) (r : Response)
| Fails (after : Z) (e : Thrown)
| Hangs.

(** The rejection of a [fetch] whose signal was aborted. *)
Definition AbortError : Thrown :=
  ErrorObject "AbortError" "This operation was aborted".

(** [interface FetchResult<T> { data: T | null; error: string | null }].
    [data] is a JavaScript value, [JNull] being [null]; [error] is [None]
    for [null]. *)
Record FetchResult : Type := {
  data : Json;
  error : option string
}.

(** The delay a timer of Node's [setTimeout] runs for, in milliseconds: a
    delay below 1 or above 2147483647 is set to 1. *)
Definition timer_delay (ms : Z) : Z :=
  if (ms <? 1) || (2147483647 <? ms) then 1 else ms.

Section Platform.

(** The global [fetch], as seen without the abort signal. *)
Variable fetch : string -> RequestInit -> Upstream.

(** [fetchWithTimeout]: [setTimeout(() => controller.abort(), timeout)]
    arms the abort timer, which goes off [timer_delay timeout] milliseconds
    after the call unless [finally] clears it first, as soon as [fetch]
    settles. The result is the time at which the call settles and what it
    settles to. *)
Definition fetchWithTimeout (url : string) (options : FetchOptions)
  : Z * Promise Response :=
  let timeout := default DEFAULT_TIMEOUT (timeout options) in
  let abort_at := timer_delay timeout in
  match fetch url (fetchOptions options) with
  | Responds t r =>
      if t <? abort_at then (t, Fulfilled r) else (abort_at, Rejected AbortError)
  | Fails t e =>
      if t <? abort_at then (t, Rejected e) else (abort_at, Rejected AbortError)
  | Hangs => (abort_at, Rejected AbortError)
  end.

(** The [catch] block shared by [fetchJson] and [fetchText]. *)
Definition on_error (e : Thrown) : Promise FetchResult :=
  match e with
  | ErrorObject name message =>
      if String.eqb name "AbortError"
      then Fulfilled {| data := JNull; error := Some "Request timed out" |}
      else Fulfilled {| data := JNull; error := Some message |}
  | NonError shown => Fulfilled {| data := JNull; error := Some shown |}
  end.

(** [`HTTP ${response.status}: ${response.statusText}`] *)
Definition http_error (response : Response) : string :=
  "HTTP " +:+ pretty (status response) +:+ ": " +:+ statusText response.

Definition fetchJson (url : string) (options : FetchOptions)
  : Promise FetchResult :=
  try_catch
    (let_await response := snd (fetchWithTimeout url options) in
     if negb (ok response)
     then Fulfilled {| data := JNull; error := Some (http_error response) |}
     else
       let_await data := json response in
       Fulfilled {| data := data; error := None |})
    on_error.

Definition fetchText (url : string) (options : FetchOptions)
  : Promise FetchResult :=
  try_catch
    (let_await response := snd (fetchWithTimeout url options) in
     if negb (ok response)
     then Fulfilled {| data := JNull; error := Some (http_error response) |}
     else
       let_await data := text response in
       Fulfilled {| data := JStr data; error := None |})
    on_error.

End Platform.

(** ** truncate *)

(** A JavaScript string is a sequence of UTF-16 code units. *)
Definition code_unit : Type := N.

Definition units (s : string) : list code_unit :=
  (fun a => Ascii.N_of_ascii a) <$> String.list_ascii_of_string s.

(** ["\n\n... [truncated]"] *)
Definition TRUNCATED : list code_unit := [10%N; 10%N] ++ units "... [truncated]".

(** [text.slice(0, end)] for an integer [end]: a negative [end] counts from
    the end of the string. *)
Definition slice0 (text : list code_unit) (end_ : Z) : list code_unit :=
  let len := Z.of_nat (length text) in
  let final := if end_ <? 0 then Z.max (len + end_) 0 else Z.min end_ len in
  take (Z.to_nat final) text.

(** [truncate(text, maxLength = 10000)]; [None] is the omitted argument.
    [maxLength] ranges over the integers. *)
Definition truncate (text : list code_unit) (maxLength : option Z)
  : list code_unit :=
  let maxLength := default 10000 maxLength in
  if Z.of_nat (length text) <=? maxLength then text
  else slice0 text maxLength ++ TRUNCATED.

(* ===================================================================== *)
(** * src/tools: the tool descriptor tables *)
(* ===================================================================== *)

(** [interface McpTool]: the name and description of a descriptor. The
    input shape and the handler play no role in the routing layer. *)
Record McpTool : Type := {
  name : string;
  description : string
}.

(** [src/tools/github.ts] *)
Definition githubTools : list McpTool := [
  {| name := "fetch_github_readme";
     description := "Fetch README from a public GitHub repo" |};
  {| name := "fetch_github_file";
     description := "Fetch any file from a public GitHub repository" |};
  {| name := "get_repo_info";
     description := "Get metadata and statistics about a GitHub repository" |};
  {| name := "list_repo_contents";
     description := "List files and folders in a GitHub repository directory" |};
  {| name := "get_github_releases";
     description := "Get recent releases and changelogs from a GitHub repository" |}
].

(** [src/tools/npm.ts] *)
Definition npmTools : list McpTool := [
  {| name := "get_npm_package";
     description := "Get detailed information about an npm package" |};
  {| name := "search_npm_packages";
     description := "Search for packages on npm registry" |};
  {| name := "get_package_versions";
     description := "Get version history of an npm package" |}
].

(** The documentation tools ([tools/docs.js]; [src/tools/docs.test.ts]
    looks both names up and checks that there are two). *)
Definition docsTools : list McpTool := [
  {| name := "fetch_url_content";
     description := "Fetch and extract readable text content from any URL. Useful for reading documentation pages, blog posts, or articles." |};
  {| name := "search_mdn";
     description := "Search MDN Web Docs for JavaScript, HTML, CSS, and Web API documentation" |}
].

(* ===================================================================== *)
(** * src/server.ts *)
(* ===================================================================== *)

(** [export const allTools = [...githubTools, ...npmTools, ...docsTools]] *)
Definition allTools : list McpTool := githubTools ++ npmTools ++ docsTools.

(** An inbound request: the [mcp-session-id] header and the parsed body. *)
Record Request : Type := {
  mcp_session_id : option string;
  body : Json
}.

(** [interface Session { server; transport }]: two object references. *)
Record Session : Type := {
  server : nat;
  transport : nat
}.

(** What the routing layer can tell about a protocol engine: the tools
    registered on it, in order, and the transport it is connected to. *)
Record McpServer : Type := {
  registeredTools : list string;
  connection : option nat
}.

(** A transport: its [sessionId] property and how often [close()] was
    invoked on it. *)
Record Transport : Type := {
  sessionId : option string;
  closeCalls : nat
}.

(** Calls into the SDK and the timer API, in the order they are made. *)
Inductive Effect : Type :=
| NewMcpServer (s : nat)
| RegisterTool (s : nat) (tool : string)
| NewTransport (t : nat)
| Connect (s t : nat)
| HandleRequest (t : nat) (req : Request) (parsedBody : option Json)
| Close (t : nat)
| SetTimeout (delay : Z) (token : string).

(** The process state: the [sessions] map, the objects it refers to, the
    pending eviction timers (deadline and captured [newSessionId]), the
    clock in milliseconds and the calls made so far. *)
Record State : Type := {
  sessions : gmap string Session;
  servers : list McpServer;
  transports : list Transport;
  timers : list (Z * string);
  clock : Z;
  trace : list Effect
}.

(** How the SDK behaves during one request: whether [server.connect]
    resolves, whether [transport.handleRequest] resolves, and the session
    id the transport generates while handling the request, if any (the
    router configures [sessionIdGenerator: () => randomUUID()]). *)
Record Sdk : Type := {
  connects : bool;
  handles : bool;
  mints : option string
}.

(** What the client gets back: a response written by a transport, a
    status with a JSON body ([res.status(c).json(b)]), a bare status
    ([res.status(c).end()]), or nothing from the handler because an awaited
    SDK call rejected. *)
Inductive Reply : Type :=
| FromTransport (t : nat)
| StatusJson (code : Z) (payload : Json)
| StatusEnd (code : Z)
| Unhandled.

Definition init : State :=
  {| sessions := ∅; servers := []; transports := []; timers := [];
     clock := 0; trace := [] |}.

Definition emit (e : Effect) (st : State) : State :=
  {| sessions := sessions st; servers := servers st;
     transports := transports st; timers := timers st;
     clock := clock st; trace := trace st ++ [e] |}.

Definition with_sessions (m : gmap string Session) (st : State) : State :=
  {| sessions := m; servers := servers st;
     transports := transports st; timers := timers st;
     clock := clock st; trace := trace st |}.

Definition with_servers (l : list McpServer) (st : State) : State :=
  {| sessions := sessions st; servers := l;
     transports := transports st; timers := timers st;
     clock := clock st; trace := trace st |}.

Definition with_transports (l : list Transport) (st : State) : State :=
  {| sessions := sessions st; servers := servers st;
     transports := l; timers := timers st;
     clock := clock st; trace := trace st |}.

Definition with_timers (l : list (Z * string)) (st : State) : State :=
  {| sessions := sessions st; servers := servers st;
     transports := transports st; timers := l;
     clock := clock st; trace := trace st |}.

Definition with_clock (now : Z) (st : State) : State :=
  {| sessions := sessions st; servers := servers st;
     transports := transports st; timers := timers st;
     clock := now; trace := trace st |}.

(** [new McpServer({...})] *)
Definition new_McpServer (st : State) : nat * State :=
  let s := length (servers st) in
  (s, emit (NewMcpServer s)
        (with_servers
           (servers st ++ [{| registeredTools := []; connection := None |}]) st)).

(** [server.registerTool(tool.name, ...)] *)
Definition registerTool (s : nat) (tool : string) (st : State) : State :=
  emit (RegisterTool s tool)
    (with_servers
       (alter (fun srv => {| registeredTools := registeredTools srv ++ [tool];
                             connection := connection srv |}) s (servers st)) st).

(** [createMcpServer]: a new engine with every tool of [allTools]
    registered by the [for] loop. *)
Definition createMcpServer (st : State) : nat * State :=
  let '(server, st) := new_McpServer st in
  (server, foldl (fun st tool => registerTool server (name tool) st) st allTools).

(** [new StreamableHTTPServerTransport({...})] *)
Definition new_StreamableHTTPServerTransport (st : State) : nat * State :=
  let t := length (transports st) in
  (t, emit (NewTransport t)
        (with_transports
           (transports st ++ [{| sessionId := None; closeCalls := 0 |}]) st)).

(** [server.connect(transport)] *)
Definition connect (s t : nat) (st : State) : State :=
  emit (Connect s t)
    (with_servers
       (alter (fun srv => {| registeredTools := registeredTools srv;
                             connection := Some t |}) s (servers st)) st).

(** [transport.handleRequest(req, res, parsedBody)]: a transport without a
    session id takes the one generated during this request. *)
Definition handleRequest (t : nat) (req : Request) (parsedBody : option Json)
    (sdk : Sdk) (st : State) : State :=
  emit (HandleRequest t req parsedBody)
    (with_transports
       (alter (fun tr => {| sessionId := match sessionId tr with
                                         | Some id => Some id
                                         | None => mints sdk
                                         end;
                            closeCalls := closeCalls tr |}) t (transports st)) st).

(** [transport.close()] *)
Definition close (t : nat) (st : State) : State :=
  emit (Close t)
    (with_transports
       (alter (fun tr => {| sessionId := sessionId tr;
                            closeCalls := S (closeCalls tr) |}) t (transports st)) st).

(** [setTimeout(callback, delay)], the callback capturing [newSessionId]. *)
Definition setTimeout (delay : Z) (newSessionId : string) (st : State) : State :=
  emit (SetTimeout delay newSessionId)
    (with_timers (timers st ++ [(clock st + delay, newSessionId)]) st).

(** [transport.sessionId] *)
Definition read_sessionId (t : nat) (st : State) : option string :=
  tr ← transports st !! t; sessionId tr.

(** [sessionId ? sessions.get(sessionId) : null] *)
Definition lookup_session (sessionId : option string) (st : State)
  : option Session :=
  match truthy sessionId with
  | Some id => sessions st !! id
  | None => None
  end.

(** [app.post("/mcp", ...)] *)
Definition post_mcp (req : Request) (sdk : Sdk) (st : State) : State * Reply :=
  let sessionId := mcp_session_id req in
  let session := lookup_session sessionId st in
  match session with
  | Some session =>
      let st := handleRequest (transport session) req (Some (body req)) sdk st in
      (st, if handles sdk then FromTransport (transport session) else Unhandled)
  | None =>
      let '(server, st) := createMcpServer st in
      let '(transport, st) := new_StreamableHTTPServerTransport st in
      let st := connect server transport st in
      if negb (connects sdk) then (st, Unhandled) else
      let st := handleRequest transport req (Some (body req)) sdk st in
      if negb (handles sdk) then (st, Unhandled) else
      let newSessionId := read_sessionId transport st in
      match truthy newSessionId with
      | Some newSessionId =>
          let st :=
            with_sessions
              (<[newSessionId := {| server := server; transport := transport |}]>
                 (sessions st)) st in
          let st := setTimeout (30 * 60 * 1000) newSessionId st in
          (st, FromTransport transport)
      | None => (st, FromTransport transport)
      end
  end.

(** The callback of the eviction timer. *)
Definition evict (newSessionId : string) (st : State) : State :=
  match sessions st !! newSessionId with
  | Some existingSession =>
      let st := close (transport existingSession) st in
      with_sessions (delete newSessionId (sessions st)) st
  | None => st
  end.

(** [{ error: "Invalid or missing session ID" }] *)
Definition invalid_session_body : Json :=
  JObj [("error", JStr "Invalid or missing session ID")].

(** [app.get("/mcp", ...)] *)
Definition get_mcp (req : Request) (sdk : Sdk) (st : State) : State * Reply :=
  let sessionId := mcp_session_id req in
  match truthy sessionId with
  | None => (st, StatusJson 400 invalid_session_body)
  | Some id =>
      match sessions st !! id with
      | None => (st, StatusJson 400 invalid_session_body)
      | Some session =>
          let st := handleRequest (transport session) req None sdk st in
          (st, if handles sdk then FromTransport (transport session) else Unhandled)
      end
  end.

(** [app.delete("/mcp", ...)] *)
Definition delete_mcp (req : Request) (st : State) : State * Reply :=
  let sessionId := mcp_session_id req in
  let st :=
    match truthy sessionId with
    | None => st
    | Some id =>
        match sessions st !! id with
        | None => st
        | Some session =>
            let st := close (transport session) st in
            with_sessions (delete id (sessions st)) st
        end
    end in
  (st, StatusEnd 204).

(** Time passes: the clock moves on by [dt] milliseconds and the timers
    whose deadline is reached run, oldest first. *)
Definition elapse (dt : Z) (st : State) : State :=
  let now := clock st + Z.max 0 dt in
  let fired := filter (fun tm => tm.1 ≤ now) (timers st) in
  let waiting := filter (fun tm => ¬ tm.1 ≤ now) (timers st) in
  foldl (fun st tm => evict tm.2 st) (with_clock now (with_timers waiting st)) fired.

(** What can happen to the process. *)
Inductive Event : Type :=
| POST (req : Request) (sdk : Sdk)
| GET (req : Request) (sdk : Sdk)
| DELETE (req : Request)
| Elapse (dt : Z).

Definition step (ev : Event) (st : State) : State * option Reply :=
  match ev with
  | POST req sdk => let '(st, r) := post_mcp req sdk st in (st, Some r)
  | GET req sdk => let '(st, r) := get_mcp req sdk st in (st, Some r)
  | DELETE req => let '(st, r) := delete_mcp req st in (st, Some r)
  | Elapse dt => (elapse dt st, None)
  end.

Definition run (evs : list Event) (st : State) : State :=
  foldl (fun st ev => (step ev st).1) st evs.

(** The states the process can be in. *)
Definition reachable (st : State) : Prop := ∃ evs, st = run evs init.

(* ===================================================================== *)
(** * Statements about the fetch helpers *)
(* ===================================================================== *)

(** When the abort timer goes off: [timeout = DEFAULT_TIMEOUT] when the
    option is omitted, and the delay [setTimeout] makes of it. *)
Definition effective_timeout (options : FetchOptions) : Z :=
  timer_delay (default DEFAULT_TIMEOUT (timeout options)).

(** The abort timer goes off before the platform's [fetch] settles. *)
Definition expires (up : Upstream) (timeout : Z) : Prop :=
  match up with
  | Responds t _ | Fails t _ => timeout ≤ t
  | Hangs => True
  end.

(** [error instanceof Error ? error.message : String(error)] *)
Definition message_of (e : Thrown) : string :=
  match e with
  | ErrorObject _ message => message
  | NonError shown => shown
  end.

(** [error instanceof Error && error.name === "AbortError"] *)
Definition is_abort (e : Thrown) : bool :=
  match e with
  | ErrorObject name _ => String.eqb name "AbortError"
  | NonError _ => false
  end.

(** A structured error result carrying [msg]. *)
Definition failed_with (msg : string) : Promise FetchResult :=
  Fulfilled {| data := JNull; error := Some msg |}.

(** Exactly one of [data] and [error] is non-null. *)
Definition exactly_one (res : FetchResult) : Prop :=
  (data res ≠ JNull ∧ error res = None) ∨ (data res = JNull ∧ error res ≠ None).

(** A failure of the call that is neither the timer nor the HTTP status:
    [fetch] rejects in time, or reading the body rejects. *)
Definition fails_otherwise (up : Upstream) (timeout : Z)
    (read : Response -> Promise Json) (e : Thrown) : Prop :=
  match up with
  | Fails t e' => t < timeout ∧ e' = e
  | Responds t r => t < timeout ∧ ok r = true ∧ read r = Rejected e
  | Hangs => False
  end.

(** The contract of one helper, [read] being the way it reads the body. *)
Definition fetch_contract
    (helper : (string -> RequestInit -> Upstream) -> string -> FetchOptions ->
              Promise FetchResult)
    (read : Response -> Promise Json)
    (fetch : string -> RequestInit -> Upstream)
    (url : string) (options : FetchOptions) : Prop :=
  let up := fetch url (fetchOptions options) in
  let timeout := effective_timeout options in
  (* never rejects *)
  (∀ e, helper fetch url options ≠ Rejected e) ∧
  (* timer expiry *)
  (expires up timeout → helper fetch url options = failed_with "Request timed out") ∧
  (* non-success status *)
  (∀ t r, up = Responds t r → t < timeout → ok r = false →
     helper fetch url options =
       failed_with ("HTTP " +:+ pretty (status r) +:+ ": " +:+ statusText r)) ∧
  (* any other failure: the message, but an [AbortError] counts as the
     timer even when the timer did not go off *)
  (∀ e, fails_otherwise up timeout read e →
     helper fetch url options =
       failed_with (if is_abort e then "Request timed out" else message_of e)) ∧
  (* success *)
  (∀ t r d, up = Responds t r → t < timeout → ok r = true →
     read r = Fulfilled d →
     helper fetch url options = Fulfilled {| data := d; error := None |}) ∧
  (* the timer is cleared before the body is read: the call stays pending
     exactly when the body of a response that came in time never arrives *)
  (helper fetch url options = Pending ↔
     ∃ t r, up = Responds t r ∧ t < timeout ∧ ok r = true ∧ read r = Pending) ∧
  (* shape of every result *)
  (∀ res, helper fetch url options = Fulfilled res →
     (error res ≠ None → data res = JNull) ∧
     (error res = None →
        ∃ t r, up = Responds t r ∧ t < timeout ∧ ok r = true ∧
               read r = Fulfilled (data res))).

(** How [fetchText] reads the body, as a JavaScript value. *)
Definition read_text (r : Response) : Promise Json :=
  match text r with
  | Fulfilled s => Fulfilled (JStr s)
  | Rejected e => Rejected e
  | Pending => Pending
  end.

(** Both helpers have the shape
    [try { response = await fetchWithTimeout; ... read body ... } catch]. *)
Definition helper_of (read : Response -> Promise Json)
    (fetch : string -> RequestInit -> Upstream)
    (url : string) (options : FetchOptions) : Promise FetchResult :=
  try_catch
    (await (fetchWithTimeout fetch url options).2 (fun response =>
       if negb (ok response)
       then Fulfilled {| data := JNull; error := Some (http_error response) |}
       else await (read response) (fun d =>
              Fulfilled {| data := d; error := None |})))
    on_error.

(** The claim about the helpers as the specification words it: a bound
    of ten seconds on every call, which therefore returns; the error's
    message on any failure other than the timer and the status; and
    exactly one non-null field. *)
Definition fetch_claim_as_stated
    (fetch : string -> RequestInit -> Upstream)
    (url : string) (options : FetchOptions) : Prop :=
  (fetchWithTimeout fetch url options).1 ≤ 10000 ∧
  (∃ res, fetchJson fetch url options = Fulfilled res) ∧
  (∃ res, fetchText fetch url options = Fulfilled res) ∧
  (∀ e, fails_otherwise (fetch url (fetchOptions options)) 10000 json e →
        fetchJson fetch url options = failed_with (message_of e)) ∧
  (∀ res, fetchJson fetch url options = Fulfilled res → exactly_one res) ∧
  (∀ res, fetchText fetch url options = Fulfilled res → exactly_one res).

(** An upstream that answers [200 OK] with the JSON document [null]. *)
Definition null_body : Response :=
  {| ok := true; status := 200; statusText := "OK";
     json := Fulfilled JNull; text := Fulfilled "null" |}.

(** An upstream that answers [200 OK] and then never delivers the body. *)
Definition stalled_body : Response :=
  {| ok := true; status := 200; statusText := "OK";
     json := Pending; text := Pending |}.

(* ===================================================================== *)
(** * Statements about [truncate] *)
(* ===================================================================== *)

(** The behaviour of [truncate] at one text and one bound. *)
Definition truncate_claim (text : list code_unit) (maxLength : Z) : Prop :=
  (Z.of_nat (length text) ≤ maxLength →
     truncate text (Some maxLength) = text) ∧
  (maxLength < Z.of_nat (length text) →
     truncate text (Some maxLength) = take (Z.to_nat maxLength) text ++ TRUNCATED ∧
     Z.of_nat (length (truncate text (Some maxLength))) =
       maxLength + Z.of_nat (length TRUNCATED)).

(* ===================================================================== *)
(** * Statements about the session registry *)
(* ===================================================================== *)

(** The names of the combined tool set, in registration order. *)
Definition tool_names : list string := name <$> allTools.

(** The calls [createMcpServer] makes for engine [s]. *)
Definition configuration_calls (s : nat) : list Effect :=
  NewMcpServer s :: (RegisterTool s <$> tool_names).

(** The calls of the creating branch of [app.post] for engine [s],
    transport [t] and inbound request [req], given what the SDK does. *)
Definition creation_calls (s t : nat) (req : Request) (sdk : Sdk) : list Effect :=
  configuration_calls s ++ [NewTransport t; Connect s t] ++
  (if connects sdk
   then HandleRequest t req (Some (body req)) ::
        (if handles sdk
         then match truthy (mints sdk) with
              | Some id => [SetTimeout 1800000 id]
              | None => []
              end
         else [])
   else []).

(** The same request with another [mcp-session-id] header. *)
Definition with_header (h : option string) (req : Request) : Request :=
  {| mcp_session_id := h; body := body req |}.

(** A reply written by the router itself rather than by a transport. *)
Definition router_reply (r : Reply) : Prop :=
  match r with
  | StatusJson _ _ | StatusEnd _ => True
  | FromTransport _ | Unhandled => False
  end.

(** The engine of a registered session is fully configured and connected
    to the session's transport, which has not been closed. *)
Definition session_ok (st : State) (tok : string) (sess : Session) : Prop :=
  tok ≠ "" ∧
  ∃ srv tr,
    servers st !! server sess = Some srv ∧
    transports st !! transport sess = Some tr ∧
    registeredTools srv = tool_names ∧
    connection srv = Some (transport sess) ∧
    closeCalls tr = 0%nat.

(** Every registered session has an eviction timer pending that goes off
    at most thirty minutes from now. *)
Definition timer_pending (st : State) (tok : string) : Prop :=
  ∃ d, (d, tok) ∈ timers st ∧ d ≤ clock st + 1800000.

(** The part of the invariant that concerns the stored objects. *)
Record core_inv (st : State) : Prop := {
  inv_sessions :
    ∀ tok sess, sessions st !! tok = Some sess → session_ok st tok sess;
  inv_unshared :
    ∀ tok1 tok2 s1 s2,
      sessions st !! tok1 = Some s1 → sessions st !! tok2 = Some s2 →
      transport s1 = transport s2 → tok1 = tok2;
  inv_closed_once :
    ∀ t tr, transports st !! t = Some tr → (closeCalls tr ≤ 1)%nat
}.

(** The invariant of the registry. *)
Definition registry_inv (st : State) : Prop :=
  core_inv st ∧
  ∀ tok sess, sessions st !! tok = Some sess → timer_pending st tok.

(** The state and the reply the creating branch of [app.post] ends with,
    in closed form. *)
Definition creation_outcome (req : Request) (sdk : Sdk) (st : State)
  : State * Reply :=
  let s := length (servers st) in
  let t := length (transports st) in
  let completed := connects sdk && handles sdk in
  let stored := if completed then truthy (mints sdk) else None in
  ({| sessions := match stored with
                  | Some id => <[id := {| server := s; transport := t |}]> (sessions st)
                  | None => sessions st
                  end;
      servers := servers st ++
                 [{| registeredTools := tool_names; connection := Some t |}];
      transports := transports st ++
                 [{| sessionId := if connects sdk then mints sdk else None;
                     closeCalls := 0 |}];
      timers := match stored with
                | Some id => timers st ++ [(clock st + 1800000, id)]
                | None => timers st
                end;
      clock := clock st;
      trace := trace st ++ creation_calls s t req sdk |},
   if completed then FromTransport t else Unhandled).

(** How often [close()] has been invoked on transport [t]. *)
Definition close_count (st : State) (t : nat) : option nat :=
  closeCalls <$> transports st !! t.

(** A request that initialises a session, and an SDK run in which the
    transport generates the id [id]. *)
Definition initialize (h : option string) : Request :=
  {| mcp_session_id := h;
     body := JObj [("jsonrpc", JStr "2.0"); ("method", JStr "initialize");
                   ("id", JNum 1)] |}.

Definition tools_list (h : option string) : Request :=
  {| mcp_session_id := h;
     body := JObj [("jsonrpc", JStr "2.0"); ("method", JStr "tools/list");
                   ("id", JNum 2)] |}.

Definition sdk_ok (minted : option string) : Sdk :=
  {| connects := true; handles := true; mints := minted |}.

(** Twenty and ten minutes, in milliseconds. *)
Definition twenty_minutes : Z := 20 * 60 * 1000.
Definition ten_minutes : Z := 10 * 60 * 1000.



(** A session is created, used after twenty minutes, and ten more minutes
    pass. *)
Definition active_session_run : list Event :=
  [ POST (initialize None) (sdk_ok (Some "7f3c"));
    Elapse twenty_minutes;
    POST (tools_list (Some "7f3c")) (sdk_ok None);
    Elapse ten_minutes ].

(* ===================================================================== *)
(** * More of src/utils/fetcher.ts: tool responses, relative time *)
(* ===================================================================== *)

Module Mcp.

(** [interface McpTextContent { type: "text"; text: string }] *)
Record McpTextContent : Type := {
  type : string;
  text : list code_unit
}.

(** [interface McpToolResponse { content; isError? }]; [None] is the
    property left out. *)
Record McpToolResponse : Type := {
  content : list McpTextContent;
  isError : option bool
}.

End Mcp.

(** [errorResponse(message)] *)
Definition errorResponse (message : list code_unit) : Mcp.McpToolResponse :=
  {| Mcp.content := [{| Mcp.type := "text"; Mcp.text := message |}];
     Mcp.isError := Some true |}.

(** [textResponse(text)] *)
Definition textResponse (text : list code_unit) : Mcp.McpToolResponse :=
  {| Mcp.content := [{| Mcp.type := "text"; Mcp.text := text |}];
     Mcp.isError := None |}.

(** The numbers [formatRelativeTime] computes with: integers and [NaN]
    (the time value of an invalid [Date]). *)
Inductive JsNum : Type :=
| NaN
| Num (z : Z).

(** [a - b] *)
Definition num_sub (a b : JsNum) : JsNum :=
  match a, b with
  | Num x, Num y => Num (x - y)
  | _, _ => NaN
  end.

(** [Math.floor(a / c)] for a positive integer constant [c]. *)
Definition floor_div (a : JsNum) (c : Z) : JsNum :=
  match a with
  | Num x => Num (x / c)
  | NaN => NaN
  end.

(** [a === c] and [a < c]: every comparison with [NaN] is false. *)
Definition num_eqb (a : JsNum) (c : Z) : bool :=
  match a with
  | Num x => x =? c
  | NaN => false
  end.

Definition num_ltb (a : JsNum) (c : Z) : bool :=
  match a with
  | Num x => x <? c
  | NaN => false
  end.

(** [`${a}`] *)
Definition num_show (a : JsNum) : string :=
  match a with
  | Num x => pretty x
  | NaN => "NaN"
  end.

(** [formatRelativeTime(date)]: [now] is [new Date().getTime()] and
    [then_] is [new Date(date).getTime()]. *)
Definition formatRelativeTime (now : Z) (then_ : JsNum) : string :=
  let diffMs := num_sub (Num now) then_ in
  let diffDays := floor_div diffMs (1000 * 60 * 60 * 24) in
  if num_eqb diffDays 0 then "today"
  else if num_eqb diffDays 1 then "yesterday"
  else if num_ltb diffDays 7 then num_show diffDays +:+ " days ago"
  else if num_ltb diffDays 30 then num_show (floor_div diffDays 7) +:+ " weeks ago"
  else if num_ltb diffDays 365 then num_show (floor_div diffDays 30) +:+ " months ago"
  else num_show (floor_div diffDays 365) +:+ " years ago".

(* ===================================================================== *)
(** * More of src/tools/github.ts and src/tools/npm.ts: the handlers *)
(* ===================================================================== *)

Definition GITHUB_API : string := "https://api.github.com".
Definition GITHUB_RAW : string := "https://raw.githubusercontent.com".

(** [for (const x of xs) { ... }] in an [async] function whose body may
    [return]: [Some v] is [return v], [None] goes on with the next
    element. *)
Fixpoint for_of {A R : Type} (xs : list A) (body : A -> Promise (option R))
  : Promise (option R) :=
  match xs with
  | [] => Fulfilled None
  | x :: xs =>
      await (body x) (fun r =>
        match r with
        | Some v => Fulfilled (Some v)
        | None => for_of xs body
        end)
  end.

(** The statement after the loops: reached when no iteration returned. *)
Definition or_else {R : Type} (loop : Promise (option R)) (rest : Promise R)
  : Promise R :=
  await loop (fun r =>
    match r with
    | Some v => Fulfilled v
    | None => rest
    end).

(** The [data] of a [FetchResult<string>]: a string or [null]. *)
Definition text_data (res : FetchResult) : option string :=
  match data res with
  | JStr s => Some s
  | _ => None
  end.

(** [`${GITHUB_RAW}/${owner}/${repo}/${branch}/${filename}`] *)
Definition raw_url (owner repo branch filename : string) : string :=
  GITHUB_RAW +:+ "/" +:+ owner +:+ "/" +:+ repo +:+ "/" +:+ branch +:+ "/" +:+ filename.

Definition readme_not_found (owner repo : string) : list code_unit :=
  units ("Failed to fetch README from " +:+ owner +:+ "/" +:+ repo +:+
         ". The repository may not exist, be private, or have a README in a different location.").

(** The handler of [fetch_github_readme]. *)
Definition fetch_github_readme (fetch : string -> RequestInit -> Upstream)
    (owner repo : string) : Promise Mcp.McpToolResponse :=
  let branches := ["main"; "master"; "canary"] in
  let filenames := ["README.md"; "readme.md"; "Readme.md"] in
  or_else
    (for_of branches (fun branch =>
       for_of filenames (fun filename =>
         let url := raw_url owner repo branch filename in
         let_await res := fetchText fetch url no_options in
         match truthy (text_data res) with
         | Some data =>
             Fulfilled (Some (textResponse (truncate (units data) (Some 8000))))
         | None => Fulfilled None
         end)))
    (Fulfilled (errorResponse (readme_not_found owner repo))).





(** JavaScript truthiness of a JSON value. *)
Definition json_truthy (j : Json) : bool :=
  match j with
  | JNull => false
  | JBool b => b
  | JNum z => negb (z =? 0)
  | JStr s => negb (String.eqb s "")
  | JArr _ | JObj _ => true
  end.

(** The guard every JSON handler puts after [fetchJson]:
    [if (error || !data) return errorResponse(`${what}: ${error || "received
    empty response"}`)]. The result is the response returned, if any. *)
Definition failure_guard (what : string) (res : FetchResult)
  : option Mcp.McpToolResponse :=
  if bool_decide (is_Some (truthy (error res))) || negb (json_truthy (data res))
  then Some (errorResponse
               (units (what +:+ ": " +:+
                       default "received empty response" (truthy (error res)))))
  else None.

(** [Math.min(Math.max(1, count), 10)] with [count = 5] by default: the
    number of releases [get_github_releases] asks for. *)
Definition releases_limit (count : option Z) : Z :=
  let count := default 5 count in
  Z.min (Z.max 1 count) 10.

(** [`${GITHUB_API}/repos/${owner}/${repo}/releases?per_page=${limit}`] *)
Definition releases_url (owner repo : string) (count : option Z) : string :=
  GITHUB_API +:+ "/repos/" +:+ owner +:+ "/" +:+ repo +:+
  "/releases?per_page=" +:+ pretty (releases_limit count).

(** [Math.min(Math.max(1, limit), 20)] with [limit = 10] by default: the
    page size of [search_npm_packages] and the number of versions
    [get_package_versions] lists. *)
Definition npm_limit (limit : option Z) : Z :=
  let limit := default 10 limit in
  Z.min (Z.max 1 limit) 20.

(* ===================================================================== *)
(** * More of src/server.ts: the health endpoint *)
(* ===================================================================== *)


(* ===================================================================== *)
(** * Statements about the added code *)
(* ===================================================================== *)

(** The nine addresses [fetch_github_readme] tries, in order. *)
Definition readme_candidates (owner repo : string) : list string :=
  branch ← ["main"; "master"; "canary"];
  filename ← ["README.md"; "readme.md"; "Readme.md"];
  [raw_url owner repo branch filename].



(** One iteration of the inner loop of [fetch_github_readme]. *)
Definition readme_attempt (fetch : string -> RequestInit -> Upstream)
    (url : string) : Promise (option Mcp.McpToolResponse) :=
  let_await res := fetchText fetch url no_options in
  match truthy (text_data res) with
  | Some data =>
      Fulfilled (Some (textResponse (truncate (units data) (Some 8000))))
  | None => Fulfilled None
  end.



(** An error tool response: one text segment and the flag set. *)
Definition is_error (r : Mcp.McpToolResponse) (t : list code_unit) : Prop :=
  r = {| Mcp.content := [{| Mcp.type := "text"; Mcp.text := t |}];
         Mcp.isError := Some true |}.

(** A platform on which every address is missing, except that [url]
    serves [body]. *)
Definition only_serves (url body : string) : string -> RequestInit -> Upstream :=
  fun u _ =>
    if String.eqb u url
    then Responds 80 {| ok := true; status := 200; statusText := "OK";
                        json := Pending; text := Fulfilled body |}
    else Responds 80 {| ok := false; status := 404; statusText := "Not Found";
                        json := Pending; text := Pending |}.

(* ===================================================================== *)
(** * Proofs: fetch helpers *)
(* ===================================================================== *)

Lemma on_error_fulfils (e : Thrown) :
  on_error e = failed_with (if is_abort e then "Request timed out" else message_of e).
Proof.
  destruct e as [nm msg | shown]; simpl; [| reflexivity].
  destruct (String.eqb nm "AbortError"); reflexivity.
Qed.

(** [fetchWithTimeout] in terms of the moment the timer goes off. *)
Lemma fetchWithTimeout_eq fetch url options :
  fetchWithTimeout fetch url options =
  match fetch url (fetchOptions options) with
  | Responds t r =>
      if t <? effective_timeout options then (t, Fulfilled r)
      else (effective_timeout options, Rejected AbortError)
  | Fails t e =>
      if t <? effective_timeout options then (t, Rejected e)
      else (effective_timeout options, Rejected AbortError)
  | Hangs => (effective_timeout options, Rejected AbortError)
  end.
Proof. reflexivity. Qed.

(** The delay of the timer. *)
Lemma timer_delay_in_range (ms : Z) :
  1 ≤ ms ≤ 2147483647 → timer_delay ms = ms.
Proof.
  intros H. unfold timer_delay.
  destruct (Z.ltb_spec ms 1); [lia |].
  destruct (Z.ltb_spec 2147483647 ms); [lia | reflexivity].
Qed.

Lemma timer_delay_out_of_range (ms : Z) :
  ms < 1 ∨ 2147483647 < ms → timer_delay ms = 1.
Proof.
  intros H. unfold timer_delay.
  destruct (Z.ltb_spec ms 1); [reflexivity |].
  destruct (Z.ltb_spec 2147483647 ms); [reflexivity | lia].
Qed.

(** The call settles no later than the abort timer. *)
Lemma fetchWithTimeout_bounded fetch url options :
  (fetchWithTimeout fetch url options).1 ≤ effective_timeout options.
Proof.
  rewrite fetchWithTimeout_eq.
  destruct (fetch url (fetchOptions options)) as [t r | t e |];
    try destruct (Z.ltb_spec t (effective_timeout options)); cbn [fst]; lia.
Qed.

(** What [fetchWithTimeout] settles to, by cases on the upstream. *)
Lemma fetchWithTimeout_expired fetch url options :
  expires (fetch url (fetchOptions options)) (effective_timeout options) →
  (fetchWithTimeout fetch url options).2 = Rejected AbortError.
Proof.
  rewrite fetchWithTimeout_eq. unfold expires.
  destruct (fetch url (fetchOptions options)) as [t r | t e |]; intros H;
    try reflexivity;
    destruct (Z.ltb_spec t (effective_timeout options));
    (reflexivity || lia).
Qed.

Lemma fetchWithTimeout_responds fetch url options t r :
  fetch url (fetchOptions options) = Responds t r →
  t < effective_timeout options →
  (fetchWithTimeout fetch url options).2 = Fulfilled r.
Proof.
  rewrite fetchWithTimeout_eq. intros -> H.
  destruct (Z.ltb_spec t (effective_timeout options)); (reflexivity || lia).
Qed.

Lemma fetchWithTimeout_fails fetch url options t e :
  fetch url (fetchOptions options) = Fails t e →
  t < effective_timeout options →
  (fetchWithTimeout fetch url options).2 = Rejected e.
Proof.
  rewrite fetchWithTimeout_eq. intros -> H.
  destruct (Z.ltb_spec t (effective_timeout options)); (reflexivity || lia).
Qed.

(** The three ways the upstream relates to the timer. *)
Lemma upstream_cases (up : Upstream) (timeout : Z) :
  expires up timeout ∨
  (∃ t r, up = Responds t r ∧ t < timeout) ∨
  (∃ t e, up = Fails t e ∧ t < timeout).
Proof.
  destruct up as [t r | t e |]; simpl; [| | by left];
    destruct (Z.lt_ge_cases t timeout); eauto 6.
Qed.

Lemma fetchJson_helper fetch url options :
  fetchJson fetch url options = helper_of json fetch url options.
Proof. reflexivity. Qed.

Lemma fetchText_helper fetch url options :
  fetchText fetch url options = helper_of read_text fetch url options.
Proof.
  unfold fetchText, helper_of, read_text.
  destruct (fetchWithTimeout fetch url options).2 as [r | e |]; simpl; try reflexivity.
  destruct (ok r); simpl; [| reflexivity].
  destruct (text r); reflexivity.
Qed.

(** What a helper returns, by cases on the upstream. *)
Lemma helper_expired read fetch url options :
  expires (fetch url (fetchOptions options)) (effective_timeout options) →
  helper_of read fetch url options = failed_with "Request timed out".
Proof.
  intros H. unfold helper_of.
  by rewrite (fetchWithTimeout_expired _ _ _ H).
Qed.

Lemma helper_fails read fetch url options t e :
  fetch url (fetchOptions options) = Fails t e →
  t < effective_timeout options →
  helper_of read fetch url options =
  failed_with (if is_abort e then "Request timed out" else message_of e).
Proof.
  intros He Ht. unfold helper_of.
  rewrite (fetchWithTimeout_fails _ _ _ _ _ He Ht). cbn [await try_catch].
  apply on_error_fulfils.
Qed.

Lemma helper_responds read fetch url options t r :
  fetch url (fetchOptions options) = Responds t r →
  t < effective_timeout options →
  helper_of read fetch url options =
  if ok r
  then match read r with
       | Fulfilled d => Fulfilled {| data := d; error := None |}
       | Rejected e =>
           failed_with (if is_abort e then "Request timed out" else message_of e)
       | Pending => Pending
       end
  else failed_with ("HTTP " +:+ pretty (status r) +:+ ": " +:+ statusText r).
Proof.
  intros Hr Ht. unfold helper_of.
  rewrite (fetchWithTimeout_responds _ _ _ _ _ Hr Ht). cbn [await].
  destruct (ok r); cbn [negb]; [| reflexivity].
  destruct (read r) as [d | e |]; cbn [await try_catch]; try reflexivity.
  apply on_error_fulfils.
Qed.

Lemma helper_contract read fetch url options :
  fetch_contract (helper_of read) read fetch url options.
Proof.
  unfold fetch_contract. cbv zeta.
  destruct (upstream_cases (fetch url (fetchOptions options))
              (effective_timeout options))
    as [Hexp | [(t & r & Hr & Ht) | (t & e & He & Ht)]].
  - (* the timer goes off first *)
    rewrite (helper_expired read _ _ _ Hexp).
    assert (Hno : ∀ t r, fetch url (fetchOptions options) = Responds t r →
                         t < effective_timeout options → False).
    { intros t r Hr Ht. rewrite Hr in Hexp. cbn in Hexp. lia. }
    split_and!.
    + discriminate.
    + reflexivity.
    + intros t r Hr Ht. destruct (Hno t r Hr Ht).
    + intros e Hf. destruct (fetch url (fetchOptions options)); cbn in *; lia.
    + intros t r d Hr Ht. destruct (Hno t r Hr Ht).
    + split; [discriminate |]. intros (t & r & Hr & Ht & _).
      destruct (Hno t r Hr Ht).
    + intros res [= <-]. cbn. split; [reflexivity | discriminate].
  - (* a response arrives in time *)
    rewrite (helper_responds read _ _ _ _ _ Hr Ht), Hr.
    assert (Hsame : ∀ t' r', Responds t r = Responds t' r' → r' = r)
      by (intros t' r' [= _ <-]; reflexivity).
    split_and!.
    + destruct (ok r); [destruct (read r) |]; discriminate.
    + cbn. lia.
    + intros t' r' Heq _ Hok. apply Hsame in Heq as ->. by rewrite Hok.
    + intros e' (_ & Hok & Hread). by rewrite Hok, Hread.
    + intros t' r' d Heq _ Hok Hread. apply Hsame in Heq as ->.
      by rewrite Hok, Hread.
    + split.
      * destruct (ok r) eqn:Hok; [| discriminate].
        destruct (read r) eqn:Hread; try discriminate. eauto 6.
      * intros (t' & r' & Heq & _ & Hok & Hread). apply Hsame in Heq as ->.
        by rewrite Hok, Hread.
    + intros res. destruct (ok r) eqn:Hok.
      * destruct (read r) as [d | e |] eqn:Hread; try discriminate;
          intros [= <-]; cbn.
        -- split; [congruence | eauto 6].
        -- split; [reflexivity | discriminate].
      * intros [= <-]. cbn. split; [reflexivity | discriminate].
  - (* fetch rejects in time *)
    rewrite (helper_fails read _ _ _ _ _ He Ht), He.
    split_and!; try discriminate.
    + cbn. lia.
    + intros e' (_ & <-). reflexivity.
    + split; [discriminate |]. intros (t' & r' & [=] & _).
    + intros res [= <-]. cbn. split; [reflexivity | discriminate].
Qed.

(** C7 (as amended). The abort timer bounds the wait for the response
    only: [fetchWithTimeout] settles no later than the timer's delay, which
    is [options.timeout] milliseconds when that lies between 1 and
    2147483647, one millisecond when it lies outside, and ten seconds when
    the option is omitted. The timer is cleared before the body is read, so
    a helper stays pending exactly when a success response came in time and
    its body never arrives. Neither helper ever rejects: when the timer goes
    off they resolve to the error "Request timed out", on a non-success
    status to "HTTP <status>: <statusText>", on any other failure to the
    error's message, except that an error named "AbortError" is reported as
    "Request timed out" even when the timer did not go off; always with
    [data] null. A success carries the body and a null [error]; for
    [fetchText] exactly one of the two fields is non-null, while [fetchJson]
    hands on whatever the body parses to. *)
Theorem fetch_helpers_contract fetch url options :
  (fetchWithTimeout fetch url options).1 ≤ effective_timeout options ∧
  (timeout options = None → effective_timeout options = 10000) ∧
  (∀ ms, timeout options = Some ms → 1 ≤ ms ≤ 2147483647 →
         effective_timeout options = ms) ∧
  (∀ ms, timeout options = Some ms → ms < 1 ∨ 2147483647 < ms →
         effective_timeout options = 1) ∧
  fetch_contract fetchJson json fetch url options ∧
  fetch_contract fetchText read_text fetch url options ∧
  (∀ res, fetchText fetch url options = Fulfilled res → exactly_one res).
Proof.
  split_and!.
  - apply fetchWithTimeout_bounded.
  - unfold effective_timeout. intros ->. reflexivity.
  - unfold effective_timeout. intros ms -> H. by apply timer_delay_in_range.
  - unfold effective_timeout. intros ms -> H. by apply timer_delay_out_of_range.
  - apply (helper_contract json).
  - pose proof (helper_contract read_text fetch url options) as H.
    unfold fetch_contract in *. rewrite fetchText_helper. exact H.
  - intros res Hres.
    pose proof (helper_contract read_text fetch url options) as H.
    unfold fetch_contract in H. rewrite <- fetchText_helper in H.
    destruct H as (_ & _ & _ & _ & _ & _ & Hshape).
    destruct (Hshape res Hres) as [Herr Hok].
    unfold exactly_one. destruct (error res) as [msg |] eqn:E.
    + right. split; [apply Herr |]; discriminate.
    + left. split; [| reflexivity].
      destruct (Hok eq_refl) as (t & r & _ & _ & _ & Hread).
      unfold read_text in Hread. destruct (text r); congruence.
Qed.

(** The contract at work: a [404] answered after 120 ms with the default
    options. *)
Lemma fetch_helpers_contract_witness :
  let fetch := fun (_ : string) (_ : RequestInit) =>
    Responds 120 {| ok := false; status := 404; statusText := "Not Found";
                    json := Pending; text := Pending |} in
  fetchJson fetch "https://api.example.com/missing" no_options =
    failed_with "HTTP 404: Not Found".
Proof.
  intros fetch.
  destruct (fetch_helpers_contract fetch "https://api.example.com/missing" no_options)
    as (_ & _ & _ & _ & (_ & _ & Hstatus & _) & _).
  apply (Hstatus 120 _ eq_refl); [reflexivity | reflexivity].
Defined.

(** C7 fails as worded, in four ways. With the default options an upstream
    that answers [200] with the JSON document [null] makes [fetchJson]
    resolve with both fields null; a caller that passes [timeout: 20000]
    gets a call that is still running after ten seconds; a response whose
    body never arrives leaves [fetchJson] pending for ever, the timer being
    cleared by then; and a rejection named "AbortError" that comes after
    five milliseconds is reported as "Request timed out", not with its
    message. *)
Lemma fetch_claim_counterexample :
  ¬ fetch_claim_as_stated (fun _ _ => Responds 120 null_body)
      "https://registry.npmjs.org/x" no_options ∧
  ¬ fetch_claim_as_stated (fun _ _ => Responds 15000 null_body)
      "https://registry.npmjs.org/x"
      {| timeout := Some 20000; method := None; headers := [] |} ∧
  ¬ fetch_claim_as_stated (fun _ _ => Responds 120 stalled_body)
      "https://registry.npmjs.org/x" no_options ∧
  ¬ fetch_claim_as_stated
      (fun _ _ => Fails 5 (ErrorObject "AbortError" "Aborted"))
      "https://api.example.com/slow" no_options.
Proof.
  split_and!.
  - intros (_ & _ & _ & _ & Hjson & _).
    destruct (Hjson {| data := JNull; error := None |} eq_refl)
      as [[Hd _] | [_ He]]; cbn in *; congruence.
  - intros (Hbound & _). vm_compute in Hbound. apply Hbound. reflexivity.
  - intros (_ & [res Hres] & _). vm_compute in Hres. discriminate.
  - intros (_ & _ & _ & Hmsg & _).
    specialize (Hmsg (ErrorObject "AbortError" "Aborted")).
    cbn in Hmsg. assert (H : 5 < 10000) by lia.
    specialize (Hmsg (conj H eq_refl)). vm_compute in Hmsg. discriminate.
Qed.

(* ===================================================================== *)
(** * Proofs: [truncate] *)
(* ===================================================================== *)

Lemma slice0_nonneg (text : list code_unit) (n : Z) :
  0 ≤ n → n < Z.of_nat (length text) → slice0 text n = take (Z.to_nat n) text.
Proof.
  intros H0 Hlt. unfold slice0.
  destruct (Z.ltb_spec n 0); [lia |].
  rewrite Z.min_l by lia. reflexivity.
Qed.

(** C10 (as amended). For every text and every integer bound
    [maxLength ≥ 0], [truncate] returns the text unchanged when it is no
    longer than the bound, and otherwise its first [maxLength] code units
    followed by the marker, so that the result is longer than the bound by
    the length of the marker. *)
Theorem truncate_spec (text : list code_unit) (maxLength : Z) :
  0 ≤ maxLength → truncate_claim text maxLength.
Proof.
  intros H0. unfold truncate_claim, truncate. simpl.
  destruct (Z.leb_spec (Z.of_nat (length text)) maxLength) as [Hle | Hgt].
  - split; [reflexivity | lia].
  - split; [lia |]. intros _.
    rewrite slice0_nonneg by lia. split; [reflexivity |].
    rewrite length_app, length_take.
    change (length TRUNCATED) with 17%nat. lia.
Qed.

(** ["Hello, world!"] cut at five code units. *)
Lemma truncate_spec_witness :
  0 ≤ 5 ∧ truncate_claim (units "Hello, world!") 5.
Proof.
  split; [lia | apply truncate_spec; lia].
Defined.

(** C10 fails for a negative bound: [slice(0, -1)] drops the last code
    unit only, so [truncate("abc", -1)] is ["ab"] and the marker. *)
Lemma truncate_negative_bound :
  truncate (units "abc") (Some (-1)) = units "ab" ++ TRUNCATED ∧
  ¬ truncate_claim (units "abc") (-1).
Proof.
  split; [reflexivity |].
  intros [_ H]. destruct H as [_ Hlen]; [reflexivity |].
  vm_compute in Hlen. discriminate.
Qed.

(** The default bound is 10000. *)
Lemma truncate_default (text : list code_unit) :
  truncate text None = truncate text (Some 10000).
Proof. reflexivity. Qed.

(* ===================================================================== *)
(** * Proofs: the tool tables *)
(* ===================================================================== *)

(** C8. No two descriptors of [allTools] share a name. *)
Theorem allTools_names_unique : NoDup (name <$> allTools).
Proof. apply (bool_decide_unpack _). vm_compute. exact I. Qed.

Lemma allTools_length : length allTools = 10%nat.
Proof. reflexivity. Qed.

(* ===================================================================== *)
(** * Proofs: the object store *)
(* ===================================================================== *)

Lemma alter_last {A} (f : A → A) (l : list A) (x : A) :
  alter f (length l) (l ++ [x]) = l ++ [f x].
Proof. induction l as [| y l IH]; simpl; [reflexivity | f_equal; exact IH]. Qed.

Lemma lookup_last {A} (l : list A) (x : A) :
  (l ++ [x]) !! length l = Some x.
Proof. induction l as [| y l IH]; simpl; [reflexivity | exact IH]. Qed.

(** Registering a run of tools on the engine allocated last. *)
Lemma register_all (tools : list McpTool) (st : State) (l : list McpServer)
    (srv : McpServer) :
  servers st = l ++ [srv] →
  foldl (fun st tool => registerTool (length l) (name tool) st) st tools =
  {| sessions := sessions st;
     servers := l ++ [{| registeredTools := registeredTools srv ++ (name <$> tools);
                         connection := connection srv |}];
     transports := transports st;
     timers := timers st;
     clock := clock st;
     trace := trace st ++ (RegisterTool (length l) <$> (name <$> tools)) |}.
Proof.
  revert st srv. induction tools as [| tool tools IH]; intros st srv Hs.
  - simpl. rewrite !app_nil_r. destruct st, srv; simpl in *. by subst.
  - cbn [foldl].
    rewrite (IH (registerTool (length l) (name tool) st)
               {| registeredTools := registeredTools srv ++ [name tool];
                  connection := connection srv |}).
    + unfold registerTool, emit, with_servers; simpl.
      rewrite <- !app_assoc. reflexivity.
    + unfold registerTool, emit, with_servers; cbn [servers].
      rewrite Hs, alter_last. reflexivity.
Qed.

(** [createMcpServer] in closed form. *)
Lemma createMcpServer_eq (st : State) :
  createMcpServer st =
  (length (servers st),
   {| sessions := sessions st;
      servers := servers st ++ [{| registeredTools := tool_names; connection := None |}];
      transports := transports st;
      timers := timers st;
      clock := clock st;
      trace := trace st ++ configuration_calls (length (servers st)) |}).
Proof.
  unfold createMcpServer, new_McpServer. f_equal.
  erewrite register_all; [| unfold emit, with_servers; simpl; reflexivity].
  unfold emit, with_servers, configuration_calls, tool_names; simpl.
  rewrite <- app_assoc. reflexivity.
Qed.

(** The creating branch of [app.post] in closed form. *)
Lemma post_mcp_miss (req : Request) (sdk : Sdk) (st : State) :
  lookup_session (mcp_session_id req) st = None →
  post_mcp req sdk st = creation_outcome req sdk st.
Proof.
  intros Hmiss. unfold post_mcp. rewrite Hmiss, createMcpServer_eq.
  unfold creation_outcome, creation_calls, new_StreamableHTTPServerTransport.
  cbv beta iota zeta.
  unfold connect, emit, with_servers, with_transports.
  cbn [sessions servers transports timers clock trace].
  rewrite alter_last.
  cbn [registeredTools connection].
  destruct (connects sdk); cbn [negb andb].
  - unfold handleRequest, emit, with_servers, with_transports.
    cbn [sessions servers transports timers clock trace].
    rewrite alter_last. cbn [sessionId closeCalls].
    destruct (handles sdk); cbn [negb andb].
    + unfold read_sessionId.
      cbn [sessions servers transports timers clock trace].
      rewrite lookup_last. cbn [mbind option_bind sessionId].
      destruct (truthy (mints sdk)) as [id |].
      * unfold setTimeout, with_sessions, with_timers, emit.
        cbn [sessions servers transports timers clock trace].
        change (30 * 60 * 1000) with 1800000.
        rewrite <- !app_assoc. reflexivity.
      * rewrite <- !app_assoc. reflexivity.
    + rewrite <- !app_assoc. reflexivity.
  - rewrite <- !app_assoc. reflexivity.
Qed.

(** The reusing branch. *)
Lemma post_mcp_hit (req : Request) (sdk : Sdk) (st : State) (sess : Session) :
  lookup_session (mcp_session_id req) st = Some sess →
  post_mcp req sdk st =
  (handleRequest (transport sess) req (Some (body req)) sdk st,
   if handles sdk then FromTransport (transport sess) else Unhandled).
Proof. intros Hhit. unfold post_mcp. by rewrite Hhit. Qed.

Lemma lookup_session_Some (tok : string) (st : State) (sess : Session) :
  tok ≠ "" → sessions st !! tok = Some sess →
  lookup_session (Some tok) st = Some sess.
Proof.
  intros Hne Hs. unfold lookup_session, truthy.
  destruct (String.eqb_spec tok ""); [contradiction | exact Hs].
Qed.

Lemma lookup_session_None (tok : string) (st : State) :
  sessions st !! tok = None → lookup_session (Some tok) st = None.
Proof.
  intros Hs. unfold lookup_session, truthy.
  destruct (String.eqb tok ""); [reflexivity | exact Hs].
Qed.

Lemma truthy_Some (s : option string) (id : string) :
  truthy s = Some id → s = Some id ∧ id ≠ "".
Proof.
  unfold truthy. destruct s as [v |]; [| discriminate].
  destruct (String.eqb_spec v ""); [discriminate |].
  intros [= <-]. by split.
Qed.

(* ===================================================================== *)
(** * Proofs: the invariant of the registry *)
(* ===================================================================== *)

Lemma core_inv_init : core_inv init.
Proof.
  split; simpl.
  - intros tok sess H. by rewrite lookup_empty in H.
  - intros tok1 tok2 s1 s2 H. by rewrite lookup_empty in H.
  - intros t tr H. by rewrite lookup_nil in H.
Qed.

(** The core invariant only reads the map and the two stores. *)
Lemma core_inv_ext (st st' : State) :
  sessions st' = sessions st → servers st' = servers st →
  transports st' = transports st → core_inv st → core_inv st'.
Proof.
  intros Hs Hv Ht [H1 H2 H3]. split.
  - intros tok sess H. rewrite Hs in H.
    destruct (H1 tok sess H) as (Hne & srv & tr & ?).
    split; [exact Hne |]. exists srv, tr. by rewrite Hv, Ht.
  - intros tok1 tok2 s1 s2. rewrite Hs. apply H2.
  - intros t tr. rewrite Ht. apply H3.
Qed.

(** Changing a transport without touching its close counter. *)
Lemma core_inv_alter (f : Transport → Transport) (t : nat) (st : State) :
  (∀ tr, closeCalls (f tr) = closeCalls tr) →
  core_inv st → core_inv (with_transports (alter f t (transports st)) st).
Proof.
  intros Hf [H1 H2 H3]. split; simpl.
  - intros tok sess H.
    destruct (H1 tok sess H) as (Hne & srv & tr & Hsrv & Htr & Hreg & Hcon & Hcl).
    split; [exact Hne |]. simpl.
    destruct (decide (t = transport sess)) as [-> | Hneq].
    + exists srv, (f tr). rewrite list_lookup_alter_eq, Htr, Hf. done.
    + exists srv, tr. rewrite list_lookup_alter_ne by done. done.
  - exact H2.
  - intros t' tr'. destruct (decide (t = t')) as [-> | Hneq].
    + rewrite list_lookup_alter_eq.
      destruct (transports st !! t') as [tr |] eqn:E; simpl; [| discriminate].
      intros [= <-]. rewrite Hf. by apply (H3 t').
    + rewrite list_lookup_alter_ne by done. apply H3.
Qed.

Lemma core_inv_handleRequest t req pb sdk (st : State) :
  core_inv st → core_inv (handleRequest t req pb sdk st).
Proof.
  intros H. unfold handleRequest.
  apply (core_inv_ext
           (with_transports
              (alter (fun tr => {| sessionId := match sessionId tr with
                                                | Some id => Some id
                                                | None => mints sdk
                                                end;
                                   closeCalls := closeCalls tr |})
                 t (transports st)) st)); try reflexivity.
  apply core_inv_alter; [intros tr; reflexivity | exact H].
Qed.

(** Closing the transport of a registered session and dropping its entry. *)
Lemma core_inv_remove (id : string) (sess : Session) (st : State) :
  core_inv st → sessions st !! id = Some sess →
  core_inv (with_sessions (delete id (sessions (close (transport sess) st)))
              (close (transport sess) st)).
Proof.
  intros [H1 H2 H3] Hid. split; simpl.
  - intros tok s Hs. apply lookup_delete_Some in Hs as [Hne Hs].
    destruct (H1 tok s Hs) as (Hnz & srv & tr & Hsrv & Htr & Hreg & Hcon & Hcl).
    split; [exact Hnz |]. exists srv, tr. simpl.
    rewrite list_lookup_alter_ne; [done |].
    intros Heq. apply Hne. by apply (H2 id tok sess s).
  - intros tok1 tok2 s1 s2 Hs1 Hs2.
    apply lookup_delete_Some in Hs1 as [_ Hs1].
    apply lookup_delete_Some in Hs2 as [_ Hs2].
    by apply (H2 tok1 tok2).
  - intros t tr. destruct (decide (transport sess = t)) as [<- | Hneq].
    + rewrite list_lookup_alter_eq.
      destruct (H1 id sess Hid) as (_ & srv & tr0 & _ & Htr0 & _ & _ & Hcl).
      rewrite Htr0. simpl. intros [= <-]. simpl. lia.
    + rewrite list_lookup_alter_ne by done. apply H3.
Qed.

Lemma core_inv_evict (tok : string) (st : State) :
  core_inv st → core_inv (evict tok st).
Proof.
  intros H. unfold evict.
  destruct (sessions st !! tok) as [sess |] eqn:E; [| exact H].
  by apply core_inv_remove.
Qed.

(** A newly created session. *)
Lemma core_inv_creation (req : Request) (sdk : Sdk) (st : State) :
  core_inv st → core_inv (creation_outcome req sdk st).1.
Proof.
  intros [H1 H2 H3].
  assert (Hold : ∀ tok sess, sessions st !! tok = Some sess →
            session_ok (creation_outcome req sdk st).1 tok sess).
  { intros tok sess Hs.
    destruct (H1 tok sess Hs) as (Hnz & srv & tr & Hsrv & Htr & Hrest).
    split; [exact Hnz |]. exists srv, tr. simpl.
    split; [by apply lookup_app_l_Some |].
    split; [by apply lookup_app_l_Some | exact Hrest]. }
  assert (Hlt : ∀ tok sess, sessions st !! tok = Some sess →
            (transport sess < length (transports st))%nat).
  { intros tok sess Hs.
    destruct (H1 tok sess Hs) as (_ & srv & tr & _ & Htr & _).
    by apply lookup_lt_Some in Htr. }
  split.
  - intros tok sess. simpl.
    destruct (connects sdk && handles sdk) eqn:Hdone; [| by apply Hold].
    destruct (truthy (mints sdk)) as [id |] eqn:Hid; [| by apply Hold].
    intros Hs. apply lookup_insert_Some in Hs as [[<- <-] | [Hne Hs]];
      [| by apply Hold].
    apply truthy_Some in Hid as [_ Hnz]. split; [exact Hnz |].
    apply andb_prop in Hdone as [-> _].
    eexists _, _. simpl. rewrite !lookup_last. done.
  - intros tok1 tok2 s1 s2. simpl.
    destruct (connects sdk && handles sdk); [| apply H2].
    destruct (truthy (mints sdk)) as [id |]; [| apply H2].
    intros Hs1 Hs2.
    apply lookup_insert_Some in Hs1 as [[<- <-] | [Hne1 Hs1]];
      apply lookup_insert_Some in Hs2 as [[<- <-] | [Hne2 Hs2]]; simpl.
    + done.
    + intros Heq. apply Hlt in Hs2. lia.
    + intros Heq. apply Hlt in Hs1. lia.
    + by apply H2.
  - intros t tr. simpl. intros Ht.
    apply lookup_app_Some in Ht as [Ht | [_ Ht]]; [by apply (H3 t) |].
    destruct (t - length (transports st))%nat; simpl in Ht; [| done].
    injection Ht as <-. simpl. lia.
Qed.

(** ** The eviction timers *)

Lemma evict_sessions (tok : string) (st : State) :
  sessions (evict tok st) = delete tok (sessions st).
Proof.
  unfold evict. destruct (sessions st !! tok) eqn:E; simpl; [reflexivity |].
  by rewrite delete_id.
Qed.

Lemma evict_timers (tok : string) (st : State) :
  timers (evict tok st) = timers st ∧ clock (evict tok st) = clock st ∧
  servers (evict tok st) = servers st.
Proof. unfold evict. destruct (sessions st !! tok); done. Qed.

Lemma fired_timers (l : list (Z * string)) (st : State) :
  let st' := foldl (fun st tm => evict tm.2 st) st l in
  timers st' = timers st ∧ clock st' = clock st ∧ servers st' = servers st.
Proof.
  revert st. induction l as [| tm l IH]; intros st; simpl; [done |].
  destruct (IH (evict tm.2 st)) as (-> & -> & ->). apply evict_timers.
Qed.

(** What survives a run of eviction callbacks. *)
Lemma fired_sessions (l : list (Z * string)) (st : State) (tok : string) :
  sessions (foldl (fun st tm => evict tm.2 st) st l) !! tok =
  if decide (tok ∈ l.*2) then None else sessions st !! tok.
Proof.
  revert st. induction l as [| tm l IH]; intros st.
  - destruct (decide (tok ∈ ([] : list (Z * string)).*2)) as [Hin | _];
      [by apply elem_of_nil in Hin | reflexivity].
  - cbn [foldl]. rewrite IH, evict_sessions, fmap_cons.
    destruct (decide (tok ∈ l.*2)) as [Hin | Hout];
      destruct (decide (tok ∈ tm.2 :: l.*2)) as [Hin' | Hout'].
    + reflexivity.
    + exfalso. apply Hout'. by right.
    + apply elem_of_cons in Hin' as [-> | ?]; [| contradiction].
      apply lookup_delete_eq.
    + apply lookup_delete_ne. intros <-. apply Hout'. by left.
Qed.

Lemma core_inv_fired (l : list (Z * string)) (st : State) :
  core_inv st → core_inv (foldl (fun st tm => evict tm.2 st) st l).
Proof.
  revert st. induction l as [| tm l IH]; intros st H; simpl; [exact H |].
  apply IH. by apply core_inv_evict.
Qed.

(** A timer that is due when the clock moves takes its token out of the
    map, whatever happened to the session in the meantime. *)
Lemma elapse_evicts (dt d : Z) (tok : string) (st : State) :
  (d, tok) ∈ timers st → d ≤ clock st + Z.max 0 dt →
  sessions (elapse dt st) !! tok = None.
Proof.
  intros Hin Hdue. unfold elapse. rewrite fired_sessions.
  rewrite decide_True; [done |].
  apply list_elem_of_fmap. exists (d, tok). split; [done |].
  apply list_elem_of_filter. by split.
Qed.

Lemma elapse_keeps (dt : Z) (tok : string) (sess : Session) (st : State) :
  sessions (elapse dt st) !! tok = Some sess → sessions st !! tok = Some sess.
Proof.
  unfold elapse. rewrite fired_sessions.
  destruct (decide _); [discriminate | done].
Qed.

Lemma elapse_clock (dt : Z) (st : State) :
  clock (elapse dt st) = clock st + Z.max 0 dt ∧
  timers (elapse dt st) =
    filter (fun tm => ¬ tm.1 ≤ clock st + Z.max 0 dt) (timers st) ∧
  servers (elapse dt st) = servers st.
Proof.
  unfold elapse.
  destruct (fired_timers
    (filter (fun tm => tm.1 ≤ clock st + Z.max 0 dt) (timers st))
    (with_clock (clock st + Z.max 0 dt)
       (with_timers (filter (fun tm => ¬ tm.1 ≤ clock st + Z.max 0 dt)
                       (timers st)) st))) as (-> & -> & ->).
  done.
Qed.

(** ** Every step keeps the invariant *)

Lemma registry_inv_init : registry_inv init.
Proof.
  split; [apply core_inv_init |].
  intros tok sess H. simpl in H. by rewrite lookup_empty in H.
Qed.

Lemma registry_inv_handleRequest t req pb sdk (st : State) :
  registry_inv st → registry_inv (handleRequest t req pb sdk st).
Proof.
  intros [Hcore Htm]. split; [by apply core_inv_handleRequest |].
  exact Htm.
Qed.

Lemma registry_inv_creation (req : Request) (sdk : Sdk) (st : State) :
  registry_inv st → registry_inv (creation_outcome req sdk st).1.
Proof.
  intros [Hcore Htm]. split; [by apply core_inv_creation |].
  intros tok sess. unfold timer_pending. simpl.
  destruct (connects sdk && handles sdk); [| apply Htm].
  destruct (truthy (mints sdk)) as [id |]; [| apply Htm].
  intros Hs. apply lookup_insert_Some in Hs as [[<- <-] | [Hne Hs]].
  - exists (clock st + 1800000). split; [| lia].
    apply elem_of_app. right. by left.
  - destruct (Htm tok sess Hs) as (d & Hin & Hd).
    exists d. split; [| exact Hd]. apply elem_of_app. by left.
Qed.

Lemma registry_inv_post (req : Request) (sdk : Sdk) (st : State) :
  registry_inv st → registry_inv (post_mcp req sdk st).1.
Proof.
  intros H.
  destruct (lookup_session (mcp_session_id req) st) as [sess |] eqn:E.
  - rewrite (post_mcp_hit _ _ _ _ E). by apply registry_inv_handleRequest.
  - rewrite (post_mcp_miss _ _ _ E). by apply registry_inv_creation.
Qed.

Lemma registry_inv_get (req : Request) (sdk : Sdk) (st : State) :
  registry_inv st → registry_inv (get_mcp req sdk st).1.
Proof.
  intros H. unfold get_mcp.
  destruct (truthy (mcp_session_id req)) as [id |]; [| exact H].
  destruct (sessions st !! id) as [sess |]; [| exact H].
  by apply registry_inv_handleRequest.
Qed.

Lemma registry_inv_delete (req : Request) (st : State) :
  registry_inv st → registry_inv (delete_mcp req st).1.
Proof.
  intros H. unfold delete_mcp. simpl.
  destruct (truthy (mcp_session_id req)) as [id |]; [| exact H].
  destruct (sessions st !! id) as [sess |] eqn:E; [| exact H].
  destruct H as [Hcore Htm]. split; [by apply core_inv_remove |].
  intros tok s Hs. simpl in Hs. apply lookup_delete_Some in Hs as [_ Hs].
  exact (Htm tok s Hs).
Qed.

Lemma registry_inv_elapse (dt : Z) (st : State) :
  registry_inv st → registry_inv (elapse dt st).
Proof.
  intros [Hcore Htm]. split.
  - unfold elapse. apply core_inv_fired.
    eapply core_inv_ext; [| | | exact Hcore]; reflexivity.
  - intros tok sess Hs.
    pose proof (elapse_keeps _ _ _ _ Hs) as Hold.
    destruct (Htm tok sess Hold) as (d & Hin & Hd).
    destruct (elapse_clock dt st) as (Hc & Ht & _).
    destruct (decide (d ≤ clock st + Z.max 0 dt)) as [Hdue | Hlater].
    + rewrite (elapse_evicts dt d tok st Hin Hdue) in Hs. discriminate.
    + exists d. rewrite Hc, Ht. split; [| lia].
      apply list_elem_of_filter. by split.
Qed.

(** The state a step leads to. *)
Lemma step_state (ev : Event) (st : State) :
  (step ev st).1 =
  match ev with
  | POST req sdk => (post_mcp req sdk st).1
  | GET req sdk => (get_mcp req sdk st).1
  | DELETE req => (delete_mcp req st).1
  | Elapse dt => elapse dt st
  end.
Proof.
  destruct ev as [req sdk | req sdk | req | dt]; unfold step.
  - by destruct (post_mcp req sdk st).
  - by destruct (get_mcp req sdk st).
  - by destruct (delete_mcp req st).
  - reflexivity.
Qed.

Lemma registry_inv_step (ev : Event) (st : State) :
  registry_inv st → registry_inv (step ev st).1.
Proof.
  intros H. rewrite step_state.
  destruct ev as [req sdk | req sdk | req | dt].
  - by apply registry_inv_post.
  - by apply registry_inv_get.
  - by apply registry_inv_delete.
  - by apply registry_inv_elapse.
Qed.

Lemma run_snoc (evs : list Event) (ev : Event) (st : State) :
  run (evs ++ [ev]) st = (step ev (run evs st)).1.
Proof. unfold run. by rewrite foldl_snoc. Qed.

Lemma registry_inv_run (evs : list Event) (st : State) :
  registry_inv st → registry_inv (run evs st).
Proof.
  intros H. induction evs as [| ev evs IH] using rev_ind; [exact H |].
  rewrite run_snoc. by apply registry_inv_step.
Qed.

(** Every state of the process satisfies the invariant. *)
Lemma reachable_inv (st : State) : reachable st → registry_inv st.
Proof. intros [evs ->]. apply registry_inv_run, registry_inv_init. Qed.

Lemma reachable_step (ev : Event) (st : State) :
  reachable st → reachable (step ev st).1.
Proof. intros [evs ->]. exists (evs ++ [ev]). by rewrite run_snoc. Qed.

(** The empty token is never a key of the map. *)
Lemma reachable_lookup (st : State) (tok : string) (sess : Session) :
  reachable st → sessions st !! tok = Some sess →
  lookup_session (Some tok) st = Some sess.
Proof.
  intros Hr Hs. apply lookup_session_Some; [| exact Hs].
  destruct (reachable_inv st Hr) as [[H1 _ _] _].
  by destruct (H1 tok sess Hs).
Qed.

(** ** A closed transport is left alone *)

Lemma close_count_alter (f : Transport → Transport) (t t' : nat)
    (l : list Transport) :
  (∀ tr, closeCalls (f tr) = closeCalls tr) →
  closeCalls <$> alter f t l !! t' = closeCalls <$> l !! t'.
Proof.
  intros Hf. destruct (decide (t = t')) as [-> | Hne].
  - rewrite list_lookup_alter_eq. destruct (l !! t'); simpl; [by rewrite Hf | done].
  - by rewrite list_lookup_alter_ne.
Qed.

Lemma handleRequest_close_count t req pb sdk (st : State) (t' : nat) :
  close_count (handleRequest t req pb sdk st) t' = close_count st t'.
Proof. unfold close_count, handleRequest. simpl. by apply close_count_alter. Qed.

Lemma creation_close_count (req : Request) (sdk : Sdk) (st : State) (t : nat) (n : nat) :
  close_count st t = Some n → close_count (creation_outcome req sdk st).1 t = Some n.
Proof.
  unfold close_count. simpl. intros H.
  destruct (transports st !! t) as [tr |] eqn:E; [| discriminate].
  by rewrite (lookup_app_l_Some _ _ _ _ E).
Qed.

Lemma remove_close_count (id : string) (sess : Session) (st : State) (t : nat) :
  core_inv st → sessions st !! id = Some sess →
  close_count st t = Some 1%nat →
  close_count (close (transport sess) st) t = Some 1%nat.
Proof.
  intros [H1 _ _] Hid Ht. unfold close_count, close in *. simpl.
  destruct (H1 id sess Hid) as (_ & srv & tr & _ & Htr & _ & _ & Hcl).
  rewrite list_lookup_alter_ne; [exact Ht |].
  intros <-. rewrite Htr in Ht. simpl in Ht. congruence.
Qed.

Lemma evict_close_count (tok : string) (st : State) (t : nat) :
  core_inv st → close_count st t = Some 1%nat →
  close_count (evict tok st) t = Some 1%nat.
Proof.
  intros Hcore Ht. unfold evict.
  destruct (sessions st !! tok) as [sess |] eqn:E; [| exact Ht].
  by apply (remove_close_count tok).
Qed.

Lemma fired_close_count (l : list (Z * string)) (st : State) (t : nat) :
  core_inv st → close_count st t = Some 1%nat →
  close_count (foldl (fun st tm => evict tm.2 st) st l) t = Some 1%nat.
Proof.
  revert st. induction l as [| tm l IH]; intros st Hcore Ht; simpl; [exact Ht |].
  apply IH; [by apply core_inv_evict | by apply evict_close_count].
Qed.

Lemma step_close_count (ev : Event) (st : State) (t : nat) :
  registry_inv st → close_count st t = Some 1%nat →
  close_count (step ev st).1 t = Some 1%nat.
Proof.
  intros [Hcore _] Ht. rewrite step_state.
  destruct ev as [req sdk | req sdk | req | dt].
  - destruct (lookup_session (mcp_session_id req) st) as [sess |] eqn:E.
    + rewrite (post_mcp_hit _ _ _ _ E). simpl.
      by rewrite handleRequest_close_count.
    + rewrite (post_mcp_miss _ _ _ E). by apply creation_close_count.
  - unfold get_mcp.
    destruct (truthy (mcp_session_id req)) as [id |]; [| exact Ht].
    destruct (sessions st !! id) as [sess |]; [| exact Ht].
    simpl. by rewrite handleRequest_close_count.
  - unfold delete_mcp. simpl.
    destruct (truthy (mcp_session_id req)) as [id |]; [| exact Ht].
    destruct (sessions st !! id) as [sess |] eqn:E; [| exact Ht].
    by apply (remove_close_count id).
  - unfold elapse. apply fired_close_count; [| exact Ht].
    eapply core_inv_ext; [| | | exact Hcore]; reflexivity.
Qed.

(** Once [close()] has been invoked on a transport it is never invoked on
    it again. *)
Lemma closed_once_for_all (evs : list Event) (st : State) (t : nat) :
  registry_inv st → close_count st t = Some 1%nat →
  close_count (run evs st) t = Some 1%nat.
Proof.
  intros Hinv Ht. induction evs as [| ev evs IH] using rev_ind; [exact Ht |].
  rewrite run_snoc. apply step_close_count; [| exact IH].
  by apply registry_inv_run.
Qed.

(** Closing the transport of a registered session: from zero to one. *)
Lemma remove_closes (id : string) (sess : Session) (st : State) :
  core_inv st → sessions st !! id = Some sess →
  close_count st (transport sess) = Some 0%nat ∧
  close_count (close (transport sess) st) (transport sess) = Some 1%nat.
Proof.
  intros [H1 _ _] Hid. unfold close_count, close. simpl.
  destruct (H1 id sess Hid) as (_ & srv & tr & _ & Htr & _ & _ & Hcl).
  rewrite list_lookup_alter_eq, Htr. simpl. by rewrite Hcl.
Qed.

(** The eviction callbacks close the transport of every session whose
    timer is among them. *)
Lemma fired_closes (l : list (Z * string)) (st : State) (tok : string)
    (sess : Session) :
  core_inv st → sessions st !! tok = Some sess → tok ∈ l.*2 →
  close_count (foldl (fun st tm => evict tm.2 st) st l) (transport sess)
    = Some 1%nat.
Proof.
  revert st. induction l as [| tm l IH]; intros st Hcore Hs Hin.
  - by apply elem_of_nil in Hin.
  - cbn [foldl]. rewrite fmap_cons in Hin.
    destruct (decide (tm.2 = tok)) as [Heq | Hne].
    + apply fired_close_count; [by apply core_inv_evict |].
      unfold evict. rewrite Heq, Hs.
      exact (proj2 (remove_closes tok sess st Hcore Hs)).
    + apply IH.
      * by apply core_inv_evict.
      * by rewrite evict_sessions, lookup_delete_ne.
      * apply elem_of_cons in Hin as [? | ?]; [congruence | done].
Qed.

(** Thirty minutes after a session was registered it is gone and its
    transport has been closed once, whether or not it was used. *)
Lemma session_lifetime (st : State) (tok : string) (sess : Session) (dt : Z) :
  reachable st → sessions st !! tok = Some sess → 1800000 ≤ dt →
  sessions (elapse dt st) !! tok = None ∧
  close_count (elapse dt st) (transport sess) = Some 1%nat.
Proof.
  intros Hr Hs Hdt. destruct (reachable_inv st Hr) as [Hcore Htm].
  destruct (Htm tok sess Hs) as (d & Hin & Hd).
  split; [apply (elapse_evicts dt d); [done | lia] |].
  unfold elapse. apply (fired_closes _ _ tok).
  - eapply core_inv_ext; [| | | exact Hcore]; reflexivity.
  - exact Hs.
  - apply list_elem_of_fmap. exists (d, tok). split; [done |].
    apply list_elem_of_filter. split; [simpl; lia | done].
Qed.

(** The callback does nothing when the entry is gone already. *)
Lemma evict_absent (tok : string) (st : State) :
  sessions st !! tok = None → evict tok st = st.
Proof. intros H. unfold evict. by rewrite H. Qed.

(* ===================================================================== *)
(** * Proofs: the request router *)
(* ===================================================================== *)

(** C1. The timer that evicts a session is set once, when the session is
    registered, and no request resets it. Here a session is created, serves
    a request twenty minutes later, and is evicted ten minutes after that
    request, its transport closed. *)
Theorem active_session_evicted :
  let before := run (take 2 active_session_run) init in
  let used := run (take 3 active_session_run) init in
  let final := run active_session_run init in
  (post_mcp (tools_list (Some "7f3c")) (sdk_ok None) before).2 = FromTransport 0 ∧
  clock used = twenty_minutes ∧
  sessions used !! "7f3c" = Some {| server := 0%nat; transport := 0%nat |} ∧
  timers used = [(1800000, "7f3c")] ∧
  clock final = twenty_minutes + ten_minutes ∧
  sessions final !! "7f3c" = None ∧
  close_count final 0 = Some 1%nat.
Proof. vm_compute. done. Qed.

(** C2. A POST whose token is not in the map is handled exactly like the
    same POST without a token: the router answers with no error of its
    own, builds a new engine and a new transport, and hands this very
    request to the new transport as the first one it handles. *)
Theorem post_unknown_token_like_none (st : State) (req : Request)
    (tok : string) (sdk : Sdk) :
  sessions st !! tok = None →
  let stale := post_mcp (with_header (Some tok) req) sdk st in
  let fresh := post_mcp (with_header None req) sdk st in
  let s := length (servers st) in
  let t := length (transports st) in
  stale.2 = fresh.2 ∧ ¬ router_reply stale.2 ∧
  sessions stale.1 = sessions fresh.1 ∧
  servers stale.1 = servers fresh.1 ∧
  transports stale.1 = transports fresh.1 ∧
  timers stale.1 = timers fresh.1 ∧
  clock stale.1 = clock fresh.1 ∧
  servers st !! s = None ∧ transports st !! t = None ∧
  servers stale.1 !! s =
    Some {| registeredTools := tool_names; connection := Some t |} ∧
  is_Some (transports stale.1 !! t) ∧
  trace stale.1 = trace st ++ creation_calls s t (with_header (Some tok) req) sdk ∧
  trace fresh.1 = trace st ++ creation_calls s t (with_header None req) sdk ∧
  (connects sdk = true →
     ∀ r, ∃ rest,
       creation_calls s t r sdk =
       configuration_calls s ++
       [NewTransport t; Connect s t; HandleRequest t r (Some (body r))] ++ rest).
Proof.
  intros Hmiss stale fresh s t. subst stale fresh s t.
  rewrite (post_mcp_miss (with_header (Some tok) req) sdk st)
    by (by apply lookup_session_None).
  rewrite (post_mcp_miss (with_header None req) sdk st) by reflexivity.
  unfold creation_outcome;
    cbn [fst snd sessions servers transports timers clock trace with_header body].
  split_and!; try reflexivity.
  - destruct (connects sdk && handles sdk); intros [].
  - by apply lookup_ge_None_2.
  - by apply lookup_ge_None_2.
  - apply lookup_last.
  - rewrite lookup_last. by eexists.
  - intros Hc r. unfold creation_calls. rewrite Hc. by eexists.
Qed.

Lemma post_unknown_token_like_none_witness :
  (post_mcp (initialize (Some "stale-token")) (sdk_ok (Some "7f3c")) init).2 =
  (post_mcp (initialize None) (sdk_ok (Some "7f3c")) init).2.
Proof.
  exact (proj1 (post_unknown_token_like_none init (initialize None)
                  "stale-token" (sdk_ok (Some "7f3c")) eq_refl)).
Defined.




(** C4. A GET whose token is missing or not in the map is answered with
    status 400 and the body [{ "error": "Invalid or missing session ID" }],
    and nothing changes; no GET ever changes the map. *)
Theorem get_requires_session (req : Request) (sdk : Sdk) (st : State) :
  ((mcp_session_id req = None ∨
    ∃ tok, mcp_session_id req = Some tok ∧ sessions st !! tok = None) →
   get_mcp req sdk st =
     (st, StatusJson 400 (JObj [("error", JStr "Invalid or missing session ID")]))) ∧
  sessions (get_mcp req sdk st).1 = sessions st.
Proof.
  unfold get_mcp. split.
  - intros [-> | (tok & -> & Hnone)]; simpl; [reflexivity |].
    destruct (String.eqb tok ""); [reflexivity |]. by rewrite Hnone.
  - destruct (truthy (mcp_session_id req)) as [id |]; [| reflexivity].
    destruct (sessions st !! id); reflexivity.
Qed.

Lemma get_requires_session_witness :
  get_mcp (tools_list (Some "invalid-session")) (sdk_ok None) init =
  (init, StatusJson 400 (JObj [("error", JStr "Invalid or missing session ID")])).
Proof.
  apply (proj1 (get_requires_session (tools_list (Some "invalid-session"))
                  (sdk_ok None) init)).
  right. exists "invalid-session". split; reflexivity.
Defined.

(** C5. Every DELETE is answered with an empty 204. If its token is in the
    map, the entry is removed and [close()] is invoked on the session's
    transport, once then and never again; otherwise nothing changes. *)
Theorem delete_is_idempotent (req : Request) (st : State) :
  let out := delete_mcp req st in
  out.2 = StatusEnd 204 ∧
  (∀ tok sess,
     reachable st → mcp_session_id req = Some tok →
     sessions st !! tok = Some sess →
     sessions out.1 = delete tok (sessions st) ∧
     sessions out.1 !! tok = None ∧
     trace out.1 = trace st ++ [Close (transport sess)] ∧
     close_count st (transport sess) = Some 0%nat ∧
     (∀ evs, close_count (run evs out.1) (transport sess) = Some 1%nat)) ∧
  ((mcp_session_id req = None ∨
    ∃ tok, mcp_session_id req = Some tok ∧ sessions st !! tok = None) →
   out.1 = st).
Proof.
  intros out. subst out. split_and!.
  - reflexivity.
  - intros tok sess Hr Hh Hs.
    pose proof (reachable_lookup st tok sess Hr Hs) as Hl.
    pose proof (reachable_inv _ (reachable_step (DELETE req) st Hr)) as Hinv'.
    destruct (reachable_inv st Hr) as [Hcore _].
    unfold lookup_session in Hl. simpl in Hinv'.
    unfold delete_mcp in *. rewrite Hh in *.
    destruct (truthy (Some tok)) as [id |] eqn:Hid; [| discriminate].
    apply truthy_Some in Hid as [[= <-] _]. rewrite Hs in *. simpl in *.
    split_and!; try reflexivity.
    + apply lookup_delete_eq.
    + exact (proj1 (remove_closes tok sess st Hcore Hs)).
    + intros evs. apply closed_once_for_all; [exact Hinv' |].
      exact (proj2 (remove_closes tok sess st Hcore Hs)).
  - intros [Hh | (tok & Hh & Hnone)]; unfold delete_mcp; rewrite Hh; simpl;
      [reflexivity |].
    destruct (String.eqb tok ""); [reflexivity |]. by rewrite Hnone.
Qed.

Lemma delete_is_idempotent_witness :
  let st := run [POST (initialize None) (sdk_ok (Some "cleanup-session"))] init in
  sessions (delete_mcp (tools_list (Some "cleanup-session")) st).1 !! "cleanup-session"
    = None.
Proof.
  intros st.
  destruct (delete_is_idempotent (tools_list (Some "cleanup-session")) st)
    as (_ & Hhit & _).
  refine (proj1 (proj2 (Hhit "cleanup-session"
            {| server := 0%nat; transport := 0%nat |} _ eq_refl eq_refl))).
  exists [POST (initialize None) (sdk_ok (Some "cleanup-session"))]. reflexivity.
Defined.

(** C6. A POST whose token is in the map is handed to the transport of
    that entry, and the call leaves the map, the engines and the timers as
    they were. *)
Theorem post_known_token_reuses (st : State) (req : Request) (tok : string)
    (sess : Session) (sdk : Sdk) :
  reachable st → mcp_session_id req = Some tok →
  sessions st !! tok = Some sess →
  let out := post_mcp req sdk st in
  trace out.1 = trace st ++ [HandleRequest (transport sess) req (Some (body req))] ∧
  out.2 = (if handles sdk then FromTransport (transport sess) else Unhandled) ∧
  sessions out.1 = sessions st ∧
  size (sessions out.1) = size (sessions st) ∧
  servers out.1 = servers st ∧
  length (transports out.1) = length (transports st) ∧
  timers out.1 = timers st.
Proof.
  intros Hr Hh Hs out. subst out.
  pose proof (reachable_lookup st tok sess Hr Hs) as Hl. rewrite <- Hh in Hl.
  rewrite (post_mcp_hit _ _ _ _ Hl). simpl.
  split_and!; try reflexivity. apply length_alter.
Qed.

Lemma post_known_token_reuses_witness :
  let st := run [POST (initialize None) (sdk_ok (Some "existing-session"))] init in
  sessions (post_mcp (tools_list (Some "existing-session")) (sdk_ok None) st).1
    = sessions st.
Proof.
  intros st.
  refine (proj1 (proj2 (proj2 (post_known_token_reuses st
            (tools_list (Some "existing-session")) "existing-session"
            {| server := 0%nat; transport := 0%nat |} (sdk_ok None) _ eq_refl eq_refl)))).
  exists [POST (initialize None) (sdk_ok (Some "existing-session"))]. reflexivity.
Defined.

(** C9. [createMcpServer] registers every tool of [allTools] on the new
    engine; on the creating path all of these registrations come before
    the engine is connected to its transport and none after; and the
    engine of every session in the map carries the whole tool set. *)
Theorem engines_fully_configured :
  (∀ st, let out := createMcpServer st in
     out.1 = length (servers st) ∧ servers st !! out.1 = None ∧
     servers out.2 !! out.1 =
       Some {| registeredTools := name <$> allTools; connection := None |} ∧
     trace out.2 = trace st ++ configuration_calls out.1 ∧
     ∀ tool, tool ∈ allTools →
       RegisterTool out.1 (name tool) ∈ configuration_calls out.1) ∧
  (∀ req sdk st,
     lookup_session (mcp_session_id req) st = None →
     let s := length (servers st) in
     let t := length (transports st) in
     ∃ rest,
       trace (post_mcp req sdk st).1 =
         trace st ++ configuration_calls s ++ [NewTransport t; Connect s t] ++ rest ∧
       ∀ tool, RegisterTool s tool ∉ rest) ∧
  (∀ st tok sess,
     reachable st → sessions st !! tok = Some sess →
     ∃ srv, servers st !! server sess = Some srv ∧
            registeredTools srv = name <$> allTools ∧
            connection srv = Some (transport sess)).
Proof.
  split_and!.
  - intros st out. subst out. rewrite createMcpServer_eq. simpl.
    split_and!; try reflexivity.
    + by apply lookup_ge_None_2.
    + apply lookup_last.
    + intros tool Hin. unfold configuration_calls, tool_names. right.
      by apply list_elem_of_fmap_2, list_elem_of_fmap_2.
  - intros req sdk st Hmiss s t. subst s t. rewrite (post_mcp_miss _ _ _ Hmiss).
    unfold creation_outcome, creation_calls. cbn [fst trace]. eexists. split.
    + reflexivity.
    + intros tool Hin. destruct (connects sdk); [| by apply elem_of_nil in Hin].
      apply elem_of_cons in Hin as [? | Hin]; [discriminate |].
      destruct (handles sdk); [| by apply elem_of_nil in Hin].
      destruct (truthy (mints sdk)); [| by apply elem_of_nil in Hin].
      apply elem_of_cons in Hin as [? | Hin]; [discriminate |].
      by apply elem_of_nil in Hin.
  - intros st tok sess Hr Hs.
    destruct (reachable_inv st Hr) as [[H1 _ _] _].
    destruct (H1 tok sess Hs) as (_ & srv & tr & Hsrv & _ & Hreg & Hcon & _).
    by exists srv.
Qed.

Lemma engines_fully_configured_witness :
  let st := run [POST (initialize None) (sdk_ok (Some "7f3c"))] init in
  ∃ srv, servers st !! 0%nat = Some srv ∧
         registeredTools srv = name <$> allTools ∧
         connection srv = Some 0%nat.
Proof.
  intros st.
  refine (proj2 (proj2 engines_fully_configured) st "7f3c"
            {| server := 0%nat; transport := 0%nat |} _ eq_refl).
  exists [POST (initialize None) (sdk_ok (Some "7f3c"))]. reflexivity.
Defined.

(* ===================================================================== *)
(** * More about [truncate] *)
(* ===================================================================== *)

Lemma truncate_long (text : list code_unit) (m : Z) :
  0 ≤ m → m < Z.of_nat (length text) →
  truncate text (Some m) = take (Z.to_nat m) text ++ TRUNCATED.
Proof.
  intros H0 Hlt. unfold truncate. cbv beta zeta.
  change (default 10000 (Some m)) with m.
  destruct (Z.leb_spec (Z.of_nat (length text)) m); [lia |].
  rewrite slice0_nonneg by lia. reflexivity.
Qed.

Lemma truncate_short (text : list code_unit) (m : Z) :
  Z.of_nat (length text) ≤ m → truncate text (Some m) = text.
Proof.
  intros Hle. unfold truncate. cbv beta zeta.
  change (default 10000 (Some m)) with m.
  destruct (Z.leb_spec (Z.of_nat (length text)) m); [reflexivity | lia].
Qed.

Lemma length_TRUNCATED : length TRUNCATED = 17%nat.
Proof. reflexivity. Qed.

(** X1. Truncating twice with the same non-negative bound is the same as
    truncating once: the marker is not stacked. *)
Theorem truncate_idempotent (text : list code_unit) (m : Z) :
  0 ≤ m →
  truncate (truncate text (Some m)) (Some m) = truncate text (Some m).
Proof.
  intros H0. destruct (Z.le_gt_cases (Z.of_nat (length text)) m) as [Hle | Hgt].
  - rewrite (truncate_short text m Hle). by apply truncate_short.
  - rewrite (truncate_long text m H0 Hgt).
    assert (Hlen : length (take (Z.to_nat m) text) = Z.to_nat m)
      by (rewrite length_take; lia).
    rewrite truncate_long.
    + rewrite take_app_le by lia. rewrite take_ge by lia. reflexivity.
    + exact H0.
    + rewrite length_app, Hlen, length_TRUNCATED. lia.
Qed.

Lemma truncate_idempotent_witness :
  0 ≤ 5 ∧
  truncate (truncate (units "Hello, world!") (Some 5)) (Some 5) =
  truncate (units "Hello, world!") (Some 5).
Proof. split; [lia | apply truncate_idempotent; lia]. Defined.

(** X2. For a non-negative bound the result keeps the first [maxLength]
    code units of the text as they are and is at most [maxLength] plus the
    seventeen code units of the marker long. *)
Theorem truncate_prefix_and_bound (text : list code_unit) (m : Z) :
  0 ≤ m →
  take (Z.to_nat m) (truncate text (Some m)) = take (Z.to_nat m) text ∧
  Z.of_nat (length (truncate text (Some m))) ≤ m + 17.
Proof.
  intros H0. destruct (Z.le_gt_cases (Z.of_nat (length text)) m) as [Hle | Hgt].
  - rewrite (truncate_short text m Hle). split; [reflexivity | lia].
  - rewrite (truncate_long text m H0 Hgt).
    assert (Hlen : length (take (Z.to_nat m) text) = Z.to_nat m)
      by (rewrite length_take; lia).
    split.
    + rewrite take_app_le by lia. by rewrite take_take, Nat.min_id.
    + rewrite length_app, Hlen, length_TRUNCATED. lia.
Qed.

Lemma truncate_prefix_and_bound_witness :
  0 ≤ 5 ∧
  Z.of_nat (length (truncate (units "Hello, world!") (Some 5))) ≤ 5 + 17.
Proof.
  split; [lia |]. apply (truncate_prefix_and_bound (units "Hello, world!") 5). lia.
Defined.

(** X3. With a negative bound every text, even the empty one, loses its
    last [-maxLength] code units (all of them when it is shorter) and gets
    the marker appended. *)
Theorem truncate_negative (text : list code_unit) (m : Z) :
  m < 0 →
  truncate text (Some m) =
  take (length text - Z.to_nat (- m)) text ++ TRUNCATED.
Proof.
  intros Hneg. unfold truncate, slice0. cbv beta zeta.
  change (default 10000 (Some m)) with m.
  destruct (Z.leb_spec (Z.of_nat (length text)) m); [lia |].
  destruct (Z.ltb_spec m 0); [| lia].
  f_equal. f_equal. lia.
Qed.

Lemma truncate_negative_witness :
  -2 < 0 ∧ truncate [] (Some (-2)) = TRUNCATED.
Proof. split; [lia | apply (truncate_negative [] (-2)); lia]. Defined.

(* ===================================================================== *)
(** * [formatRelativeTime] *)
(* ===================================================================== *)

(** The number of whole days between two times. *)
Lemma formatRelativeTime_days (now t : Z) :
  formatRelativeTime now (Num t) =
  let d := (now - t) / 86400000 in
  if d =? 0 then "today"
  else if d =? 1 then "yesterday"
  else if d <? 7 then pretty d +:+ " days ago"
  else if d <? 30 then pretty (d / 7) +:+ " weeks ago"
  else if d <? 365 then pretty (d / 30) +:+ " months ago"
  else pretty (d / 365) +:+ " years ago".
Proof. reflexivity. Qed.

(** X4. For a date that is not in the future the answer is "today" within
    the first 24 hours, "yesterday" on the second day, then a count of
    days from 2 to 6, of weeks from 1 to 4, of months from 1 to 12, and
    from 365 days on a count of years that is at least 1. *)
Theorem formatRelativeTime_past (now t : Z) :
  t ≤ now →
  let d := (now - t) / 86400000 in
  let r := formatRelativeTime now (Num t) in
  (d = 0 ∧ r = "today") ∨
  (d = 1 ∧ r = "yesterday") ∨
  (2 ≤ d ≤ 6 ∧ r = pretty d +:+ " days ago") ∨
  (7 ≤ d ≤ 29 ∧ ∃ w, w = d / 7 ∧ 1 ≤ w ≤ 4 ∧ r = pretty w +:+ " weeks ago") ∨
  (30 ≤ d ≤ 364 ∧ ∃ mo, mo = d / 30 ∧ 1 ≤ mo ≤ 12 ∧ r = pretty mo +:+ " months ago") ∨
  (365 ≤ d ∧ ∃ y, y = d / 365 ∧ 1 ≤ y ∧ r = pretty y +:+ " years ago").
Proof.
  intros Hpast d r. subst r. rewrite formatRelativeTime_days. fold d.
  assert (Hd : 0 ≤ d) by (apply Z.div_pos; lia).
  cbv zeta.
  destruct (Z.eqb_spec d 0); [by left |].
  destruct (Z.eqb_spec d 1); [by right; left |].
  destruct (Z.ltb_spec d 7); [right; right; left; split; [lia | done] |].
  destruct (Z.ltb_spec d 30).
  { do 3 right. left. split; [lia |]. exists (d / 7). split_and!; try done.
    - apply Z.div_le_lower_bound; lia.
    - assert (d / 7 < 5) by (apply Z.div_lt_upper_bound; lia). lia. }
  destruct (Z.ltb_spec d 365).
  { do 4 right. left. split; [lia |]. exists (d / 30). split_and!; try done.
    - apply Z.div_le_lower_bound; lia.
    - assert (d / 30 < 13) by (apply Z.div_lt_upper_bound; lia). lia. }
  do 5 right. split; [lia |]. exists (d / 365). split_and!; try done.
  apply Z.div_le_lower_bound; lia.
Qed.

Lemma formatRelativeTime_past_witness :
  1769256000000 ≤ 1769860800000 ∧
  formatRelativeTime 1769860800000 (Num 1769256000000) = "1 weeks ago".
Proof.
  split; [lia |].
  pose proof (formatRelativeTime_past 1769860800000 1769256000000) as H.
  cbv zeta in H.
  change ((1769860800000 - 1769256000000) / 86400000) with 7 in H.
  destruct H as [[H _] | [[H _] | [[H _] | [[_ (w & Hw & _ & Hr)] | [[H _] | [H _]]]]]];
    try lia.
  rewrite Hr, Hw. reflexivity.
Defined.

(** X5. A date that cannot be parsed is reported as "NaN years ago", and a
    date in the future, however near, as a negative number of days, never
    as "today". *)
Theorem formatRelativeTime_not_past (now : Z) :
  formatRelativeTime now NaN = "NaN years ago" ∧
  (∀ t, now < t →
     ∃ d, d = (now - t) / 86400000 ∧ d ≤ -1 ∧
          formatRelativeTime now (Num t) = pretty d +:+ " days ago").
Proof.
  split; [reflexivity |].
  intros t Hfut. exists ((now - t) / 86400000).
  assert (Hd : (now - t) / 86400000 ≤ -1).
  { assert ((now - t) / 86400000 < 0) by (apply Z.div_lt_upper_bound; lia). lia. }
  split_and!; try done.
  rewrite formatRelativeTime_days. cbv zeta.
  destruct (Z.eqb_spec ((now - t) / 86400000) 0); [lia |].
  destruct (Z.eqb_spec ((now - t) / 86400000) 1); [lia |].
  destruct (Z.ltb_spec ((now - t) / 86400000) 7); [done | lia].
Qed.

(* ===================================================================== *)
(** * Loops with an early [return] *)
(* ===================================================================== *)

Section ForOf.
Context {A R : Type}.
Implicit Types (xs : list A) (body : A → Promise (option R)).



Lemma for_of_ext xs body body' :
  (∀ x, x ∈ xs → body x = body' x) → for_of xs body = for_of xs body'.
Proof.
  induction xs as [| x xs IH]; intros H; [reflexivity |].
  cbn [for_of]. rewrite (H x) by left. f_equal.
  rewrite IH; [reflexivity |]. intros y Hy. apply H. by right.
Qed.




Lemma for_of_singleton x body : for_of [x] body = body x.
Proof. cbn [for_of]. by destruct (body x) as [[v |] | e |]. Qed.

End ForOf.

(** Two nested loops are one loop over the pairs in order. *)
Lemma for_of_nested {A B R : Type} (xs : list A) (f : A → list B)
    (body : B → Promise (option R)) :
  for_of xs (fun x => for_of (f x) body) = for_of (xs ≫= f) body.
Proof.
  assert (Happ : ∀ l1 l2 : list B,
            for_of (l1 ++ l2) body =
            await (for_of l1 body) (fun r =>
              match r with
              | Some v => Fulfilled (Some v)
              | None => for_of l2 body
              end)).
  { induction l1 as [| y l1 IH]; intros l2; cbn [app for_of await].
    - reflexivity.
    - destruct (body y) as [[v |] | e |]; cbn [await]; try reflexivity.
      apply IH. }
  induction xs as [| x xs IH]; [reflexivity |].
  cbn [for_of]. rewrite bind_cons, Happ, IH. reflexivity.
Qed.

(* ===================================================================== *)
(** * The handlers of [fetch_github_readme] and [fetch_github_file] *)
(* ===================================================================== *)


Lemma fetchText_ext fetch fetch' url options :
  fetch url (fetchOptions options) = fetch' url (fetchOptions options) →
  fetchText fetch url options = fetchText fetch' url options.
Proof. intros H. unfold fetchText, fetchWithTimeout. by rewrite H. Qed.


Lemma length_units (s : string) : length (units s) = String.length s.
Proof.
  unfold units. rewrite length_fmap.
  induction s as [| a s IH]; simpl; [reflexivity | by rewrite IH].
Qed.







(** The handler as one search through the nine addresses. *)
Lemma fetch_github_readme_flat fetch owner repo :
  fetch_github_readme fetch owner repo =
  or_else (for_of (readme_candidates owner repo) (readme_attempt fetch))
    (Fulfilled (errorResponse (readme_not_found owner repo))).
Proof.
  unfold fetch_github_readme, readme_candidates. cbv zeta. f_equal.
  rewrite <- for_of_nested. apply for_of_ext. intros branch _.
  rewrite <- for_of_nested. apply for_of_ext. intros filename _.
  rewrite for_of_singleton. reflexivity.
Qed.




(** X8. [fetch_github_readme] consults nothing but the nine addresses, and
    those without method or headers: two platforms that agree on these nine
    requests get the same answer. *)
Theorem readme_reads_only_candidates fetch fetch' owner repo :
  (∀ u, u ∈ readme_candidates owner repo →
        fetch u {| init_method := None; init_headers := [] |} =
        fetch' u {| init_method := None; init_headers := [] |}) →
  fetch_github_readme fetch owner repo = fetch_github_readme fetch' owner repo.
Proof.
  intros H. rewrite !fetch_github_readme_flat. f_equal.
  apply for_of_ext. intros u Hu. unfold readme_attempt.
  by rewrite (fetchText_ext fetch fetch' u no_options (H u Hu)).
Qed.

Lemma readme_reads_only_candidates_witness :
  fetch_github_readme
    (only_serves (raw_url "test" "repo" "main" "README.md") "# Title")
    "test" "repo" =
  fetch_github_readme
    (fun u init =>
       match init_headers init with
       | [] => only_serves (raw_url "test" "repo" "main" "README.md") "# Title" u init
       | _ => Hangs
       end)
    "test" "repo".
Proof.
  apply readme_reads_only_candidates. intros u _. reflexivity.
Defined.

(** ** [fetch_github_file] *)








(* ===================================================================== *)
(** * The JSON handlers: failure guard and page sizes *)
(* ===================================================================== *)

Lemma fetchJson_never_rejects fetch url options e :
  fetchJson fetch url options ≠ Rejected e.
Proof. by destruct (helper_contract json fetch url options) as [H _]. Qed.

(** X11. After [fetchJson], the guard [if (error || !data)] lets a result
    pass only when the upstream answered in time with a success status and
    a truthy JSON body, which is then the [data]; in every other case it
    returns an error response whose reason is never empty: the error of
    [fetchJson], or "received empty response" when that error is null or
    empty, as for the JSON bodies [null], [false], [0] and [""]. *)
Theorem failure_guard_after_fetchJson fetch url options what res :
  fetchJson fetch url options = Fulfilled res →
  match failure_guard what res with
  | None =>
      error res = None ∧ json_truthy (data res) = true ∧
      ∃ t r, fetch url (fetchOptions options) = Responds t r ∧
             t < effective_timeout options ∧ ok r = true ∧
             json r = Fulfilled (data res)
  | Some response =>
      ∃ reason,
        reason ≠ "" ∧
        is_error response (units (what +:+ ": " +:+ reason)) ∧
        (error res = Some reason ∨
         (reason = "received empty response" ∧
          truthy (error res) = None ∧ json_truthy (data res) = false))
  end.
Proof.
  intros Hres.
  destruct (helper_contract json fetch url options) as (_ & _ & _ & _ & _ & _ & Hshape).
  change (helper_of json fetch url options) with (fetchJson fetch url options) in Hshape.
  destruct (Hshape res Hres) as [Herr Hok].
  unfold failure_guard.
  destruct (truthy (error res)) as [reason |] eqn:Et.
  - rewrite bool_decide_true by eauto. cbn [orb default].
    apply truthy_Some in Et as [He Hne]. exists reason. split_and!; try done.
    by left.
  - rewrite bool_decide_false by (intros [? [=]]). cbn [orb default].
    destruct (json_truthy (data res)) eqn:Ed; cbn [negb].
    + destruct (error res) as [msg |] eqn:Ee.
      * rewrite Herr in Ed by discriminate. discriminate.
      * split_and!; try done. by apply Hok.
    + exists "received empty response". split_and!; try done. by right.
Qed.

(** A [200] whose body is the JSON document [null]. *)
Lemma failure_guard_after_fetchJson_witness :
  failure_guard "Failed to fetch repo info" {| data := JNull; error := None |} =
  Some (errorResponse (units "Failed to fetch repo info: received empty response")).
Proof.
  pose proof (failure_guard_after_fetchJson
                (fun _ _ => Responds 120 null_body)
                "https://api.github.com/repos/o/r" no_options
                "Failed to fetch repo info"
                {| data := JNull; error := None |} eq_refl) as H.
  destruct (failure_guard "Failed to fetch repo info"
              {| data := JNull; error := None |}) as [response |].
  - destruct H as (reason & _ & -> & [[=] | (-> & _)]). reflexivity.
  - destruct H as (_ & [=] & _).
Defined.

(** X12. Whatever integer the caller passes, [get_github_releases] asks
    for between 1 and 10 releases and the npm handlers for between 1 and
    20 entries; a value inside the range is used as it is, and a missing
    one is 5, respectively 10. *)
Theorem page_sizes_are_clamped (count : option Z) :
  1 ≤ releases_limit count ≤ 10 ∧
  1 ≤ npm_limit count ≤ 20 ∧
  (∀ n, count = Some n → 1 ≤ n ≤ 10 → releases_limit count = n) ∧
  (∀ n, count = Some n → 1 ≤ n ≤ 20 → npm_limit count = n) ∧
  releases_limit None = 5 ∧ npm_limit None = 10 ∧
  (∀ owner repo, ∃ n,
     1 ≤ n ≤ 10 ∧
     releases_url owner repo count =
     "https://api.github.com/repos/" +:+ owner +:+ "/" +:+ repo +:+
     "/releases?per_page=" +:+ pretty n).
Proof.
  unfold releases_url, releases_limit, npm_limit.
  destruct count as [n |]; cbn [default from_option id].
  - split_and!; try lia; try done.
    + intros m [= ->] ?. lia.
    + intros m [= ->] ?. lia.
    + intros owner repo. exists (Z.min (Z.max 1 n) 10). split; [lia |]. reflexivity.
  - split_and!; try lia; try done.
    intros owner repo. exists 5. split; [lia |]. reflexivity.
Qed.

(* ===================================================================== *)
(** * More about the session registry *)
(* ===================================================================== *)

(** X13. A GET whose token is in the map is handed to the transport of
    that entry, without a parsed body, and nothing else happens: the map,
    the engines, the timers and the clock stay as they are and the
    transport is not closed. *)
Theorem get_known_token_delegates (st : State) (req : Request) (tok : string)
    (sess : Session) (sdk : Sdk) :
  reachable st → mcp_session_id req = Some tok →
  sessions st !! tok = Some sess →
  let out := get_mcp req sdk st in
  trace out.1 = trace st ++ [HandleRequest (transport sess) req None] ∧
  out.2 = (if handles sdk then FromTransport (transport sess) else Unhandled) ∧
  sessions out.1 = sessions st ∧
  servers out.1 = servers st ∧
  timers out.1 = timers st ∧
  clock out.1 = clock st ∧
  close_count out.1 (transport sess) = Some 0%nat.
Proof.
  intros Hr Hh Hs out. subst out.
  pose proof (reachable_lookup st tok sess Hr Hs) as Hl.
  destruct (reachable_inv st Hr) as [Hcore _].
  unfold lookup_session in Hl. unfold get_mcp. rewrite Hh.
  destruct (truthy (Some tok)) as [id |] eqn:Hid; [| discriminate].
  apply truthy_Some in Hid as [[= <-] _]. rewrite Hs. cbn [fst snd].
  split_and!; try reflexivity.
  rewrite handleRequest_close_count.
  exact (proj1 (remove_closes tok sess st Hcore Hs)).
Qed.

Lemma get_known_token_delegates_witness :
  let st := run [POST (initialize None) (sdk_ok (Some "sse-session"))] init in
  (get_mcp (tools_list (Some "sse-session")) (sdk_ok None) st).2 = FromTransport 0.
Proof.
  intros st.
  refine (proj1 (proj2 (get_known_token_delegates st
            (tools_list (Some "sse-session")) "sse-session"
            {| server := 0%nat; transport := 0%nat |} (sdk_ok None) _ eq_refl eq_refl))).
  exists [POST (initialize None) (sdk_ok (Some "sse-session"))]. reflexivity.
Defined.

(** Where an entry of the map comes from. *)
Lemma step_entry_origin (ev : Event) (st : State) (tok : string)
    (sess : Session) :
  sessions (step ev st).1 !! tok = Some sess →
  sessions st !! tok = Some sess ∨
  ∃ req sdk,
    ev = POST req sdk ∧
    lookup_session (mcp_session_id req) st = None ∧
    connects sdk = true ∧ handles sdk = true ∧
    mints sdk = Some tok ∧ tok ≠ "" ∧
    sess = {| server := length (servers st); transport := length (transports st) |}.
Proof.
  rewrite step_state. destruct ev as [req sdk | req sdk | req | dt].
  - destruct (lookup_session (mcp_session_id req) st) as [s |] eqn:E.
    + rewrite (post_mcp_hit _ _ _ _ E). cbn [fst]. by left.
    + rewrite (post_mcp_miss _ _ _ E). unfold creation_outcome. cbn [fst sessions].
      destruct (connects sdk) eqn:Hc; cbn [andb]; [| by left].
      destruct (handles sdk) eqn:Hh; [| by left].
      destruct (truthy (mints sdk)) as [id |] eqn:Hid; [| by left].
      apply truthy_Some in Hid as [Hm Hnz].
      intros H. apply lookup_insert_Some in H as [[<- <-] | [_ H]]; [| by left].
      right. exists req, sdk. by split_and!.
  - unfold get_mcp.
    destruct (truthy (mcp_session_id req)) as [id |]; [| by left].
    destruct (sessions st !! id); by left.
  - unfold delete_mcp. cbn [fst].
    destruct (truthy (mcp_session_id req)) as [id |]; [| by left].
    destruct (sessions st !! id) as [s |]; [| by left].
    cbn [sessions with_sessions close emit with_transports].
    intros H. apply lookup_delete_Some in H as [_ H]. by left.
  - intros H. left. by apply (elapse_keeps dt).
Qed.

(** X14. Entries only come into the map through a creating POST that
    completes with a non-empty session id: after any step, an entry of the
    map was there before, unchanged, or it is the pair made by that POST
    under the id its transport produced. *)
Theorem entries_come_from_post (ev : Event) (st : State) (tok : string)
    (sess : Session) :
  sessions (step ev st).1 !! tok = Some sess →
  sessions st !! tok = Some sess ∨
  ∃ req sdk,
    ev = POST req sdk ∧
    lookup_session (mcp_session_id req) st = None ∧
    connects sdk = true ∧ handles sdk = true ∧
    mints sdk = Some tok ∧ tok ≠ "" ∧
    sess = {| server := length (servers st); transport := length (transports st) |}.
Proof. apply step_entry_origin. Qed.

Lemma entries_come_from_post_witness :
  sessions init !! "7f3c" = Some {| server := 0%nat; transport := 0%nat |} ∨
  ∃ req sdk,
    POST (initialize None) (sdk_ok (Some "7f3c")) = POST req sdk ∧
    lookup_session (mcp_session_id req) init = None ∧
    connects sdk = true ∧ handles sdk = true ∧
    mints sdk = Some "7f3c" ∧ "7f3c" ≠ "" ∧
    {| server := 0%nat; transport := 0%nat |} =
    {| server := length (servers init); transport := length (transports init) |}.
Proof.
  exact (entries_come_from_post (POST (initialize None) (sdk_ok (Some "7f3c")))
           init "7f3c" {| server := 0%nat; transport := 0%nat |} eq_refl).
Defined.

(** An entry none of whose timers is due is not touched when time passes. *)
Lemma elapse_spares (dt : Z) (tok : string) (st : State) :
  (∀ d, (d, tok) ∈ timers st → clock st + Z.max 0 dt < d) →
  sessions (elapse dt st) !! tok = sessions st !! tok.
Proof.
  intros Hlate. unfold elapse. rewrite fired_sessions.
  rewrite decide_False; [reflexivity |].
  intros Hin. apply list_elem_of_fmap in Hin as ([d tok'] & Heq & Hin).
  cbn in Heq. subst tok'. apply list_elem_of_filter in Hin as [Hdue Hin].
  cbn in Hdue. specialize (Hlate d Hin). lia.
Qed.

(** X15. A session registered under a token for which no timer is pending
    is still in the map, with the pair made for it, after any wait shorter
    than thirty minutes. *)
Theorem new_session_lives_thirty_minutes (req : Request) (sdk : Sdk)
    (st : State) (tok : string) (dt : Z) :
  lookup_session (mcp_session_id req) st = None →
  connects sdk = true → handles sdk = true →
  mints sdk = Some tok → tok ≠ "" →
  (∀ d, (d, tok) ∉ timers st) →
  dt < 1800000 →
  sessions (elapse dt (post_mcp req sdk st).1) !! tok =
  Some {| server := length (servers st); transport := length (transports st) |}.
Proof.
  intros Hmiss Hc Hh Hm Hnz Hfresh Hdt.
  assert (Htruthy : truthy (mints sdk) = Some tok).
  { rewrite Hm. unfold truthy. by destruct (String.eqb_spec tok ""). }
  rewrite elapse_spares.
  - rewrite (post_mcp_miss _ _ _ Hmiss). unfold creation_outcome.
    cbn [fst sessions]. rewrite Hc, Hh, Htruthy. cbn [andb].
    apply lookup_insert_eq.
  - rewrite (post_mcp_miss _ _ _ Hmiss). unfold creation_outcome.
    cbn [fst timers clock]. rewrite Hc, Hh, Htruthy. cbn [andb].
    intros d Hin. apply elem_of_app in Hin as [Hin | Hin].
    + by apply Hfresh in Hin.
    + apply list_elem_of_singleton in Hin as [= ->]. lia.
Qed.

Lemma new_session_lives_thirty_minutes_witness :
  sessions (elapse 1799999 (post_mcp (initialize None) (sdk_ok (Some "7f3c")) init).1)
    !! "7f3c" = Some {| server := 0%nat; transport := 0%nat |}.
Proof.
  refine (new_session_lives_thirty_minutes (initialize None) (sdk_ok (Some "7f3c"))
            init "7f3c" 1799999 eq_refl eq_refl eq_refl eq_refl _ _ eq_refl).
  - discriminate.
  - intros d Hin. by apply elem_of_nil in Hin.
Defined.

(** X16. No session outlives thirty minutes: when thirty minutes or more
    pass without a request, the map is empty afterwards and the transport
    of every session that was in it has been closed exactly once. *)
Theorem registry_empties_after_thirty_minutes (st : State) (dt : Z) :
  reachable st → 1800000 ≤ dt →
  sessions (elapse dt st) = ∅ ∧
  ∀ tok sess, sessions st !! tok = Some sess →
              close_count st (transport sess) = Some 0%nat ∧
              close_count (elapse dt st) (transport sess) = Some 1%nat.
Proof.
  intros Hr Hdt. split.
  - apply map_eq. intros tok. rewrite lookup_empty.
    destruct (sessions (elapse dt st) !! tok) as [sess |] eqn:E; [| reflexivity].
    pose proof (elapse_keeps _ _ _ _ E) as Hold.
    destruct (session_lifetime st tok sess dt Hr Hold Hdt) as [Hnone _].
    congruence.
  - intros tok sess Hs. destruct (reachable_inv st Hr) as [Hcore _]. split.
    + exact (proj1 (remove_closes tok sess st Hcore Hs)).
    + by destruct (session_lifetime st tok sess dt Hr Hs Hdt).
Qed.

Lemma registry_empties_after_thirty_minutes_witness :
  sessions (elapse 1800000
              (run [POST (initialize None) (sdk_ok (Some "7f3c"));
                    Elapse 60000;
                    POST (initialize None) (sdk_ok (Some "a41e"))] init)) = ∅.
Proof.
  refine (proj1 (registry_empties_after_thirty_minutes _ 1800000 _ _)).
  - eexists. reflexivity.
  - lia.
Defined.

(** Distinct sessions have distinct engines. *)
Lemma engines_unshared (st : State) :
  reachable st →
  ∀ tok1 tok2 s1 s2,
    sessions st !! tok1 = Some s1 → sessions st !! tok2 = Some s2 →
    server s1 = server s2 → tok1 = tok2.
Proof.
  intros [evs ->]. induction evs as [| ev evs IH] using rev_ind.
  - intros tok1 tok2 s1 s2 H. cbn in H. by rewrite lookup_empty in H.
  - rewrite run_snoc. set (st := run evs init) in *.
    assert (Hlt : ∀ tok s, sessions st !! tok = Some s →
                           (server s < length (servers st))%nat).
    { intros tok s Hs.
      destruct (registry_inv_run evs init registry_inv_init) as [[H1 _ _] _].
      destruct (H1 tok s Hs) as (_ & srv & tr & Hsrv & _).
      by apply lookup_lt_Some in Hsrv. }
    intros tok1 tok2 s1 s2 Hs1 Hs2 Heq.
    apply step_entry_origin in Hs1 as [Hs1 | (r1 & k1 & -> & _ & _ & _ & Hm1 & _ & ->)];
      apply step_entry_origin in Hs2 as [Hs2 | (r2 & k2 & Hev & _ & _ & _ & Hm2 & _ & ->)].
    + by apply (IH tok1 tok2 s1 s2).
    + apply Hlt in Hs1. cbn in Heq. lia.
    + apply Hlt in Hs2. cbn in Heq. lia.
    + injection Hev as <- <-. congruence.
Qed.

(** X17. The router never invokes [close()] twice on a transport, a
    transport that is still registered has never been closed, and two
    sessions never share a transport or an engine. *)
Theorem transports_closed_at_most_once (st : State) :
  reachable st →
  (∀ t tr, transports st !! t = Some tr → (closeCalls tr ≤ 1)%nat) ∧
  (∀ tok sess, sessions st !! tok = Some sess →
               close_count st (transport sess) = Some 0%nat) ∧
  (∀ tok1 tok2 s1 s2,
     sessions st !! tok1 = Some s1 → sessions st !! tok2 = Some s2 →
     tok1 ≠ tok2 → transport s1 ≠ transport s2 ∧ server s1 ≠ server s2).
Proof.
  intros Hr. destruct (reachable_inv st Hr) as [[H1 H2 H3] _]. split_and!.
  - exact H3.
  - intros tok sess Hs.
    exact (proj1 (remove_closes tok sess st (Build_core_inv st H1 H2 H3) Hs)).
  - intros tok1 tok2 s1 s2 Hs1 Hs2 Hne. split; intros Heq; apply Hne.
    + by apply (H2 tok1 tok2 s1 s2).
    + by apply (engines_unshared st Hr tok1 tok2 s1 s2).
Qed.

Lemma transports_closed_at_most_once_witness :
  let st := run [POST (initialize None) (sdk_ok (Some "7f3c"));
                 POST (initialize None) (sdk_ok (Some "a41e"));
                 DELETE (tools_list (Some "7f3c"))] init in
  close_count st 1 = Some 0%nat.
Proof.
  intros st.
  refine (proj1 (proj2 (transports_closed_at_most_once st _)) "a41e"
            {| server := 1%nat; transport := 1%nat |} eq_refl).
  eexists. reflexivity.
Defined.

(** The callbacks of timers whose tokens are not in the map do nothing. *)
Lemma fired_absent (l : list (Z * string)) (st : State) :
  (∀ tm, tm ∈ l → sessions st !! tm.2 = None) →
  foldl (fun st tm => evict tm.2 st) st l = st.
Proof.
  induction l as [| tm l IH]; intros H; [reflexivity |].
  cbn [foldl]. rewrite evict_absent by (apply H; by left).
  apply IH. intros tm' Hin. apply H. by right.
Qed.

(** Time passing over timers whose tokens are gone. *)
Lemma elapse_stale (st : State) (dt : Z) :
  (∀ d tok, (d, tok) ∈ timers st → d ≤ clock st + Z.max 0 dt →
            sessions st !! tok = None) →
  sessions (elapse dt st) = sessions st ∧
  servers (elapse dt st) = servers st ∧
  transports (elapse dt st) = transports st ∧
  trace (elapse dt st) = trace st ∧
  clock (elapse dt st) = clock st + Z.max 0 dt ∧
  ∀ d tok, (d, tok) ∈ timers (elapse dt st) ↔
           (d, tok) ∈ timers st ∧ clock st + Z.max 0 dt < d.
Proof.
  intros Hstale. unfold elapse. rewrite fired_absent.
  - cbn [sessions servers transports trace clock timers with_clock with_timers].
    split_and!; try reflexivity.
    intros d tok. rewrite list_elem_of_filter. cbn [fst]. split.
    + intros [Hlate Hin]. split; [done | lia].
    + intros [Hin Hlate]. split; [lia | done].
  - intros [d tok] Hin. apply list_elem_of_filter in Hin as [Hdue Hin].
    cbn [snd sessions with_clock with_timers]. by apply (Hstale d tok).
Qed.

(** X18. A timer that goes off for a token that is no longer in the map
    does nothing: when this holds for all timers that are due, the passing
    of time changes the clock and the list of timers and nothing else; no
    transport is closed. *)
Theorem stale_timers_do_nothing (st : State) (dt : Z) :
  (∀ d tok, (d, tok) ∈ timers st → d ≤ clock st + Z.max 0 dt →
            sessions st !! tok = None) →
  sessions (elapse dt st) = sessions st ∧
  servers (elapse dt st) = servers st ∧
  transports (elapse dt st) = transports st ∧
  trace (elapse dt st) = trace st ∧
  clock (elapse dt st) = clock st + Z.max 0 dt ∧
  ∀ d tok, (d, tok) ∈ timers (elapse dt st) ↔
           (d, tok) ∈ timers st ∧ clock st + Z.max 0 dt < d.
Proof. apply elapse_stale. Qed.

Lemma stale_timers_do_nothing_witness :
  let st := run [POST (initialize None) (sdk_ok (Some "7f3c"));
                 DELETE (tools_list (Some "7f3c"))] init in
  trace (elapse 1800000 st) = trace st.
Proof.
  intros st.
  refine (proj1 (proj2 (proj2 (proj2 (stale_timers_do_nothing st 1800000 _))))).
  intros d tok Hin _. subst st.
  change (timers _) with [(1800000, "7f3c")] in Hin.
  apply list_elem_of_singleton in Hin as [= _ ->]. vm_compute. reflexivity.
Defined.

(** X19. Creating a session and deleting it again restores the map: after
    a creating POST that mints a token not yet in the map and a DELETE with
    that token, the map is what it was, the new transport has been closed
    once, and the eviction timer of the session is still pending; when it
    goes off later, alone, nothing is closed a second time. *)
Theorem create_then_delete_restores_map (req : Request) (sdk : Sdk)
    (st : State) (tok : string) :
  lookup_session (mcp_session_id req) st = None →
  connects sdk = true → handles sdk = true →
  mints sdk = Some tok → tok ≠ "" →
  sessions st !! tok = None →
  let created := (post_mcp req sdk st).1 in
  let out := (delete_mcp (with_header (Some tok) req) created).1 in
  sessions out = sessions st ∧
  close_count out (length (transports st)) = Some 1%nat ∧
  timers out = timers st ++ [(clock st + 1800000, tok)] ∧
  (timers st = [] → ∀ dt,
     sessions (elapse dt out) = sessions st ∧ trace (elapse dt out) = trace out).
Proof.
  intros Hmiss Hc Hh Hm Hnz Hfresh created out.
  assert (Htruthy : truthy (Some tok) = Some tok).
  { unfold truthy. by destruct (String.eqb_spec tok ""). }
  assert (Hcreated : created =
    {| sessions := <[tok := {| server := length (servers st);
                               transport := length (transports st) |}]> (sessions st);
       servers := servers st ++
                  [{| registeredTools := tool_names;
                      connection := Some (length (transports st)) |}];
       transports := transports st ++ [{| sessionId := Some tok; closeCalls := 0 |}];
       timers := timers st ++ [(clock st + 1800000, tok)];
       clock := clock st;
       trace := trace st ++
                creation_calls (length (servers st)) (length (transports st)) req sdk |}).
  { subst created. rewrite (post_mcp_miss _ _ _ Hmiss). unfold creation_outcome.
    rewrite Hc, Hh, Hm, Htruthy. reflexivity. }
  assert (Hout_sessions : sessions out = sessions st).
  { subst out. unfold delete_mcp. cbn [mcp_session_id with_header fst].
    rewrite Htruthy, Hcreated. cbn [sessions].
    rewrite lookup_insert_eq.
    cbn [sessions with_sessions close emit with_transports].
    rewrite delete_insert_eq. by apply delete_id. }
  assert (Hout_timers : timers out = timers st ++ [(clock st + 1800000, tok)]).
  { subst out. unfold delete_mcp. cbn [mcp_session_id with_header fst].
    rewrite Htruthy, Hcreated. cbn [sessions].
    rewrite lookup_insert_eq. reflexivity. }
  split_and!; try done.
  - subst out. unfold delete_mcp, close_count. cbn [mcp_session_id with_header fst].
    rewrite Htruthy, Hcreated. cbn [sessions].
    rewrite lookup_insert_eq.
    cbn [transports with_sessions close emit with_transports transport].
    rewrite alter_last, lookup_last. reflexivity.
  - intros Hnone dt.
    destruct (elapse_stale out dt) as (Hs & _ & _ & Ht & _).
    + intros d tok' Hin _. rewrite Hout_timers, Hnone in Hin.
      apply list_elem_of_singleton in Hin as [= _ ->]. by rewrite Hout_sessions.
    + by rewrite Hs, Hout_sessions.
Qed.

Lemma create_then_delete_restores_map_witness :
  sessions (delete_mcp (with_header (Some "cleanup-session") (initialize None))
              (post_mcp (initialize None) (sdk_ok (Some "cleanup-session")) init).1).1
  = sessions init.
Proof.
  refine (proj1 (create_then_delete_restores_map (initialize None)
            (sdk_ok (Some "cleanup-session")) init "cleanup-session"
            eq_refl eq_refl eq_refl eq_refl _ eq_refl)).
  discriminate.
Defined.

(** X20. The token minted by a creating POST resolves from then on: the
    next POST that carries it is handed to the transport made for the
    session, and neither a new engine nor a new transport is made. *)
Theorem minted_token_resolves (req : Request) (sdk : Sdk) (st : State)
    (tok : string) (req' : Request) (sdk' : Sdk) :
  lookup_session (mcp_session_id req) st = None →
  connects sdk = true → handles sdk = true →
  mints sdk = Some tok → tok ≠ "" →
  mcp_session_id req' = Some tok →
  let created := (post_mcp req sdk st).1 in
  let t := length (transports st) in
  let next := post_mcp req' sdk' created in
  sessions created !! tok = Some {| server := length (servers st); transport := t |} ∧
  trace next.1 = trace created ++ [HandleRequest t req' (Some (body req'))] ∧
  next.2 = (if handles sdk' then FromTransport t else Unhandled) ∧
  sessions next.1 = sessions created ∧
  length (servers next.1) = length (servers created) ∧
  length (transports next.1) = length (transports created).
Proof.
  intros Hmiss Hc Hh Hm Hnz Hh' created t next.
  assert (Htruthy : truthy (Some tok) = Some tok).
  { unfold truthy. by destruct (String.eqb_spec tok ""). }
  assert (Hs : sessions created !! tok =
               Some {| server := length (servers st); transport := t |}).
  { subst created. rewrite (post_mcp_miss _ _ _ Hmiss). unfold creation_outcome.
    cbn [fst sessions]. rewrite Hc, Hh, Hm, Htruthy. cbn [andb].
    apply lookup_insert_eq. }
  assert (Hl : lookup_session (mcp_session_id req') created =
               Some {| server := length (servers st); transport := t |}).
  { rewrite Hh'. by apply lookup_session_Some. }
  subst next. rewrite (post_mcp_hit _ _ _ _ Hl). cbn [fst snd transport].
  split_and!; try done. apply length_alter.
Qed.

Lemma minted_token_resolves_witness :
  (post_mcp (tools_list (Some "7f3c")) (sdk_ok None)
     (post_mcp (initialize None) (sdk_ok (Some "7f3c")) init).1).2 = FromTransport 0.
Proof.
  refine (proj1 (proj2 (proj2 (minted_token_resolves (initialize None)
            (sdk_ok (Some "7f3c")) init "7f3c" (tools_list (Some "7f3c"))
            (sdk_ok None) eq_refl eq_refl eq_refl eq_refl _ eq_refl)))).
  discriminate.
Defined.

